(** * Throttle: the rate-limiting proxy of [bandwidth_proxy.py]

    A shallow embedding of the three coroutines of [bandwidth_proxy.py]
    ([token_bucket_copy], [handle_tunnel], [handle_client]) and the
    properties of the specification that concern them; then of its
    listener ([start_server]) and of the rates that [throttleW.py] hands to
    it ([start_proxy]), with further properties of all of them (X1, X2,
    ...).

    Conventions of the embedding.

    - Python floats are read as exact rationals ([Q]); [int(x)] is truncation
      towards zero, [min] keeps its first smallest argument.
    - Every [await] is a question put to the environment.  The environment is
      a record of oracles (a [world]): what the k-th call of an awaited
      operation gives back, a value or an exception.  Theorems quantify over
      all worlds.  [writer.write] and [writer.close] only fill or drop a
      buffer: they are recorded in the trace and do not fail.
    - Exceptions are the three classes the code tells apart: cancellation
      ([asyncio.CancelledError], a [BaseException] since Python 3.8 and so
      not caught by [except Exception]), [ConnectionResetError], and any
      other subclass of [Exception].  What the process raises on a signal
      ([KeyboardInterrupt], [SystemExit]) is outside the model.
    - A loop is run one iteration per [step]; the configurations between
      iterations are the observation points of an execution. *)

From Stdlib Require Import ZArith QArith Qround Qminmax Qfield Lqa Lia.
From Stdlib Require Import String Ascii.
From Stdlib Require Import List Bool.
Import ListNotations.

Open Scope Q_scope.

(** ** Awaited operations and their results *)

Module Aio.

Inductive exn : Type :=
| CancelledError
| ConnectionResetError
| OtherError.

Inductive res (A : Type) : Type :=
| Ok (a : A)
| Raise (e : exn).

Arguments Ok {A} a.
Arguments Raise {A} e.

Definition bytes : Type := list Byte.byte.

(** [except Exception] catches everything but cancellation. *)
Definition is_Exception (e : exn) : bool :=
  match e with
  | CancelledError => false
  | _ => true
  end.

End Aio.

(** ** The relay: [token_bucket_copy] *)

Module Relay.
Import Aio.

Definition KBPS_TO_BPS : Q := 1000.

(** [max_chunk = 16 * 1024] *)
Definition max_chunk : Z := 16 * 1024.

(** the argument of [reader.read(8192)] *)
Definition read_size : nat := N.to_nat 8192.

(** [bytes_per_second = (rate_kbps * KBPS_TO_BPS) / 8.0] *)
Definition bytes_per_second (rate_kbps : Q) : Q :=
  (rate_kbps * KBPS_TO_BPS) / 8.

(** the cap of the bucket, [2 * bytes_per_second] *)
Definition capacity (bps : Q) : Q := 2 * bps.

(** [int(x)] on a float: the integer part, rounded towards zero. *)
Definition py_int (x : Q) : Z := Z.quot (Qnum x) (Zpos (Qden x)).

(** [min(a, b, c)]: the first of the smallest arguments. *)
Definition py_min3 (a b c : Q) : Q := Qmin (Qmin a b) c.

Definition Qgtb (x y : Q) : bool := negb (Qle_bool x y).

(** What the relay does to the outside, in order. *)
Inductive event : Type :=
| EvRead (data : bytes)      (* [reader.read(8192)] gave back [data] *)
| EvWrite (chunk : bytes)    (* [writer.write(chunk)] *)
| EvSleep                    (* [asyncio.sleep(0.01)] *)
| EvClose.                   (* [writer.close()] *)

(** The environment of one relay: the successive values of
    [time.monotonic()], and the results of the successive awaits. *)
Record world : Type := mkWorld {
  monotonic : nat -> Q;
  read : nat -> res bytes;
  drain : nat -> res unit;
  sleep : nat -> res unit
}.

(** [reader.read(n)] hands over at most [n] bytes of what is there. *)
Definition reader_read (w : world) (k n : nat) : res bytes :=
  match read w k with
  | Ok data => Ok (firstn n data)
  | Raise e => Raise e
  end.

(** Which exit of the function was taken; Python returns [None] at each. *)
Inductive exit : Type :=
| Refused               (* the [return] of the [rate_kbps <= 0] branch *)
| EndOfStream           (* [break] on an empty read, then the end of the body *)
| PeerReset             (* [return] under [except ConnectionResetError] *)
| Suppressed (e : exn). (* [pass] under [except Exception] *)

Inductive outcome : Type :=
| Returned (how : exit)
| Raised (e : exn).

(** Where the control is between two iterations. *)
Inductive control : Type :=
| AtRead                              (* top of [while True] *)
| AtFlush (data : bytes) (idx : nat)  (* top of [while idx < len(data)] *)
| Done (o : outcome).

Record config : Type := mkConfig {
  ctl : control;
  tokens : Q;
  last : Q;
  clock_calls : nat;
  read_calls : nat;
  drain_calls : nat;
  sleep_calls : nat;
  trace : list event
}.

(** The two [except] clauses that close the [try] of the function. *)
Definition except_clauses (e : exn) : outcome :=
  match e with
  | CancelledError => Raised CancelledError
  | _ => Returned (Suppressed e)
  end.

(** The refill of the bucket at time [now]:
    [tokens += elapsed * bytes_per_second], then the cap. *)
Definition refill (bps tokens0 last0 now : Q) : Q :=
  let elapsed := now - last0 in
  let tokens1 := tokens0 + elapsed * bps in
  if Qgtb tokens1 (2 * bps) then 2 * bps else tokens1.

(** [allowed = int(min(tokens, max_chunk, len(data) - idx))] *)
Definition allowance (tokens0 : Q) (len idx : nat) : Z :=
  py_int (py_min3 tokens0 (inject_Z max_chunk)
                  (inject_Z (Z.of_nat len - Z.of_nat idx))).

(** One iteration of the inner loop, entered with [idx < len(data)]. *)
Definition flush_once (w : world) (bps : Q) (data : bytes) (idx : nat)
  (c : config) : config :=
  let now := monotonic w (clock_calls c) in
  let tokens2 := refill bps (tokens c) (last c) now in
  let allowed := allowance tokens2 (length data) idx in
  if (allowed <=? 0)%Z then
    match sleep w (sleep_calls c) with
    | Ok _ =>
        mkConfig (AtFlush data idx) tokens2 now (S (clock_calls c))
          (read_calls c) (drain_calls c) (S (sleep_calls c))
          (trace c ++ [EvSleep])
    | Raise e =>
        mkConfig (Done (except_clauses e)) tokens2 now (S (clock_calls c))
          (read_calls c) (drain_calls c) (S (sleep_calls c))
          (trace c ++ [EvSleep])
    end
  else
    let chunk := firstn (Z.to_nat allowed) (skipn idx data) in
    match drain w (drain_calls c) with
    | Ok _ =>
        mkConfig (AtFlush data (idx + Z.to_nat allowed))
          (tokens2 - inject_Z allowed) now (S (clock_calls c))
          (read_calls c) (S (drain_calls c)) (sleep_calls c)
          (trace c ++ [EvWrite chunk])
    | Raise ConnectionResetError =>
        mkConfig (Done (Returned PeerReset)) tokens2 now (S (clock_calls c))
          (read_calls c) (S (drain_calls c)) (sleep_calls c)
          (trace c ++ [EvWrite chunk])
    | Raise e =>
        mkConfig (Done (except_clauses e)) tokens2 now (S (clock_calls c))
          (read_calls c) (S (drain_calls c)) (sleep_calls c)
          (trace c ++ [EvWrite chunk])
    end.

(** One iteration of either loop. *)
Definition step (w : world) (bps : Q) (c : config) : config :=
  match ctl c with
  | Done _ => c
  | AtRead =>
      match reader_read w (read_calls c) read_size with
      | Raise e =>
          mkConfig (Done (except_clauses e)) (tokens c) (last c)
            (clock_calls c) (S (read_calls c)) (drain_calls c)
            (sleep_calls c) (trace c)
      | Ok data =>
          mkConfig
            (match data with
             | [] => Done (Returned EndOfStream)
             | _ :: _ => AtFlush data 0
             end)
            (tokens c) (last c) (clock_calls c) (S (read_calls c))
            (drain_calls c) (sleep_calls c) (trace c ++ [EvRead data])
      end
  | AtFlush data idx =>
      if (idx <? length data)%nat then flush_once w bps data idx c
      else
        mkConfig AtRead (tokens c) (last c) (clock_calls c) (read_calls c)
          (drain_calls c) (sleep_calls c) (trace c)
  end.

(** The function up to its first loop iteration: the [rate_kbps <= 0]
    branch, which is outside the [try], and the set-up of the bucket. *)
Definition start (w : world) (rate_kbps : Q) : config :=
  if Qle_bool rate_kbps 0 then
    match drain w 0 with
    | Ok _ => mkConfig (Done (Returned Refused)) 0 0 0 0 1 0 [EvClose]
    | Raise e => mkConfig (Done (Raised e)) 0 0 0 0 1 0 []
    end
  else
    mkConfig AtRead (bytes_per_second rate_kbps) (monotonic w 0) 1 0 0 0 [].

(** [token_bucket_copy] after [n] loop iterations. *)
Definition token_bucket_copy (w : world) (rate_kbps : Q) (n : nat) : config :=
  Nat.iter n (step w (bytes_per_second rate_kbps)) (start w rate_kbps).

(** The bytes a trace took from the source, and those it gave to the sink. *)
Fixpoint received (tr : list event) : bytes :=
  match tr with
  | [] => []
  | EvRead data :: tr' => data ++ received tr'
  | _ :: tr' => received tr'
  end.

Fixpoint written (tr : list event) : bytes :=
  match tr with
  | [] => []
  | EvWrite chunk :: tr' => chunk ++ written tr'
  | _ :: tr' => written tr'
  end.

Definition is_io (e : event) : bool :=
  match e with
  | EvRead _ | EvWrite _ => true
  | _ => false
  end.

(** [time.monotonic()] never goes back. *)
Definition monotone (w : world) : Prop :=
  forall k, monotonic w k <= monotonic w (S k).

(** *** The invariants of the loops *)

(** The number of payload bytes written so far. *)
Definition sent (c : config) : Q :=
  inject_Z (Z.of_nat (length (written (trace c)))).

(** The tokens a running relay may still spend. *)
Definition owed (c : config) : Q :=
  match ctl c with
  | Done _ => 0
  | _ => tokens c
  end.

(** The bucket is within its bounds, [last] is the latest reading of the
    clock, and what is sent and what may still be spent fit in the budget:
    one second of allowance plus the time elapsed at the rate. *)
Definition metered (w : world) (bps : Q) (c : config) : Prop :=
  0 <= tokens c /\ tokens c <= capacity bps /\
  (exists k, clock_calls c = S k /\ last c = monotonic w k) /\
  sent c + owed c <= bps + (last c - monotonic w 0) * bps.

(** What was read is what was written, then the unsent rest of the current
    read; after an exception, the rest that is dropped. *)
Definition in_order (c : config) : Prop :=
  match ctl c with
  | AtRead | Done (Returned EndOfStream) =>
      received (trace c) = written (trace c)
  | AtFlush data idx =>
      (idx <= length data)%nat /\
      received (trace c) = written (trace c) ++ skipn idx data
  | Done _ => exists rest, received (trace c) = written (trace c) ++ rest
  end.

(** A read gives at most [read_size] bytes. *)
Definition bounded_read (e : event) : Prop :=
  match e with
  | EvRead data => (length data <= read_size)%nat
  | _ => True
  end.

(** Only cancellation leaves the [try]. *)
Definition contained (c : config) : Prop :=
  forall e, ctl c = Done (Raised e) -> e = CancelledError.

(** The exception, if any, raised by the operation that the iteration
    starting at [c] awaits. *)
Definition raised_at (w : world) (bps : Q) (c : config) : option exn :=
  match ctl c with
  | Done _ => None
  | AtRead =>
      match read w (read_calls c) with
      | Raise e => Some e
      | Ok _ => None
      end
  | AtFlush data idx =>
      if (idx <? length data)%nat then
        let now := monotonic w (clock_calls c) in
        let tokens2 := refill bps (tokens c) (last c) now in
        if (allowance tokens2 (length data) idx <=? 0)%Z then
          match sleep w (sleep_calls c) with
          | Raise e => Some e
          | Ok _ => None
          end
        else
          match drain w (drain_calls c) with
          | Raise e => Some e
          | Ok _ => None
          end
      else None
  end.

(** *** Sample environments *)

(** [b"A" * n] *)
Definition payload (n : nat) : bytes := repeat Byte.x41 n.

(** A source with 3000 bytes and then the end of the stream, a sink that
    takes everything, a clock read every half second. *)
Definition w_steady : world :=
  mkWorld (fun k => Z.of_nat k # 2)
    (fun k => match k with O => Ok (payload 3000) | _ => Ok [] end)
    (fun _ => Ok tt) (fun _ => Ok tt).


(** A writer whose first [drain] is interrupted by a cancellation. *)
Definition w_cancelled : world :=
  mkWorld (fun k => inject_Z (Z.of_nat k)) (fun _ => Ok (payload 100))
    (fun _ => Raise CancelledError) (fun _ => Ok tt).

(** A writer whose peer is gone: [drain] raises [ConnectionResetError]. *)
Definition w_reset : world :=
  mkWorld (fun k => inject_Z (Z.of_nat k)) (fun _ => Ok (payload 100))
    (fun _ => Raise ConnectionResetError) (fun _ => Ok tt).


End Relay.

(** ** Text: Python [str] values and the [str] methods the handlers call *)

Module Text.
Import Aio.

(** A [str] is a sequence of Unicode code points. *)
Definition str : Type := list N.

Definition lit (s : String.string) : str :=
  map Ascii.N_of_ascii (String.list_ascii_of_string s).

Definition blit (s : String.string) : bytes := String.list_byte_of_string s.

Arguments lit s%_string.
Arguments blit s%_string.

Definition crlf : bytes := [Byte.x0d; Byte.x0a].

Definition colon : N := 58.

(** The methods whose result depends on CPython's codecs and Unicode
    tables.  The handlers are stated over any implementation of them;
    [ascii_str] below is the one used to run requests written in ASCII. *)
Class PyStr : Type := {
  decode : bytes -> str;          (* [b.decode(errors="ignore")] *)
  strip : str -> str;             (* [s.strip()] *)
  split_ws : str -> list str;     (* [s.split()] *)
  upper : str -> str;             (* [s.upper()] *)
  lower : str -> str;             (* [s.lower()] *)
  int_of : str -> option Z        (* [int(s)]; [None] is [ValueError] *)
}.

Fixpoint str_eqb (a b : str) : bool :=
  match a, b with
  | [], [] => true
  | x :: a', y :: b' => (x =? y)%N && str_eqb a' b'
  | _, _ => false
  end.

(** [s.startswith(prefix)] *)
Fixpoint startswith (prefix s : str) : bool :=
  match prefix, s with
  | [], _ => true
  | x :: prefix', y :: s' => (x =? y)%N && startswith prefix' s'
  | _ :: _, [] => false
  end.

(** [':' in s] *)
Definition has_colon (s : str) : bool := existsb (N.eqb colon) s.

(** [s.split(':')[0]], which is also [s.split(':', 1)[0]] *)
Fixpoint before_colon (s : str) : str :=
  match s with
  | [] => []
  | c :: s' => if (c =? colon)%N then [] else c :: before_colon s'
  end.

(** [s.split(':', 1)[1]]; [None] is the [IndexError] of a [s] without colon *)
Fixpoint after_colon (s : str) : option str :=
  match s with
  | [] => None
  | c :: s' => if (c =? colon)%N then Some s' else after_colon s'
  end.

(** [s.split('\r\n')], with the piece under construction in [cur], reversed *)
Fixpoint split_crlf_from (cur : str) (s : str) : list str :=
  match s with
  | [] => [rev cur]
  | c :: s' =>
      match s' with
      | d :: s'' =>
          if (c =? 13)%N && (d =? 10)%N then rev cur :: split_crlf_from [] s''
          else split_crlf_from (c :: cur) s'
      | [] => split_crlf_from (c :: cur) s'
      end
  end.

Definition split_crlf (s : str) : list str := split_crlf_from [] s.

(** [line == b"\r\n"] *)
Definition is_crlf (line : bytes) : bool :=
  match line with
  | [Byte.x0d; Byte.x0a] => true
  | _ => false
  end.

(** *** The ASCII instance *)

(** The white space of [str.strip] and [str.split] below U+0080. *)
Definition is_space (c : N) : bool :=
  ((9 <=? c) && (c <=? 13) || (28 <=? c) && (c <=? 32))%N.

Definition ascii_upper (c : N) : N :=
  if ((97 <=? c) && (c <=? 122))%N then (c - 32)%N else c.

Definition ascii_lower (c : N) : N :=
  if ((65 <=? c) && (c <=? 90))%N then (c + 32)%N else c.

Fixpoint lstrip (s : str) : str :=
  match s with
  | c :: s' => if is_space c then lstrip s' else s
  | [] => []
  end.

Definition ascii_strip (s : str) : str := rev (lstrip (rev (lstrip s))).

Fixpoint ascii_split_from (cur : str) (s : str) : list str :=
  match s with
  | [] => match cur with [] => [] | _ => [rev cur] end
  | c :: s' =>
      if is_space c then
        match cur with
        | [] => ascii_split_from [] s'
        | _ => rev cur :: ascii_split_from [] s'
        end
      else ascii_split_from (c :: cur) s'
  end.

Definition ascii_decode (b : bytes) : str :=
  filter (fun c => (c <? 128)%N) (map Byte.to_N b).

Definition is_digit (c : N) : bool := ((48 <=? c) && (c <=? 57))%N.

(** decimal digits, single underscores allowed between two digits *)
Fixpoint digits_from (acc : Z) (after_digit : bool) (s : str) : option Z :=
  match s with
  | [] => if after_digit then Some acc else None
  | c :: s' =>
      if is_digit c then digits_from (10 * acc + Z.of_N (c - 48)) true s'
      else if (c =? 95)%N && after_digit then digits_from acc false s'
      else None
  end.

Definition ascii_int (s : str) : option Z :=
  match ascii_strip s with
  | 43%N :: s' => digits_from 0 false s'
  | 45%N :: s' => option_map Z.opp (digits_from 0 false s')
  | s' => digits_from 0 false s'
  end.

(** Agrees with CPython on text whose code points are all below U+0080. *)
Definition ascii_str : PyStr := {|
  decode := ascii_decode;
  strip := ascii_strip;
  split_ws := ascii_split_from [];
  upper := map ascii_upper;
  lower := map ascii_lower;
  int_of := ascii_int
|}.

End Text.

(** ** The handlers: [handle_client] and [handle_tunnel] *)

Module Proxy.
Import Aio Text.

Inductive peer : Type := Client | Remote.

Inductive direction : Type := Up | Down.

(** What a handler does to the outside, in order. *)
Inductive event : Type :=
| EvWrite (to : peer) (data : bytes)       (* [writer.write(data)] *)
| EvClose (p : peer)                       (* [writer.close()] *)
| EvConnect (host : str) (port : Z)        (* [asyncio.open_connection] *)
| EvRelay (d : direction) (rate_kbps : Q). (* [create_task] of a relay *)

(** How far a handler got.  [Relaying]: both relay tasks are created and the
    handler waits for the first of them; each task is a [Relay] execution.
    [Waiting]: suspended in [readuntil], the client has sent no more. *)
Inductive outcome : Type :=
| Returned
| Raised (e : exn)
| Relaying
| Waiting.

(** The environment of one client connection. *)
Record world : Type := mkWorld {
  client_lines : list (res bytes);        (* the successive [readuntil] *)
  client_drain : nat -> res unit;         (* the k-th [drain] of the client *)
  open_connection : str -> Z -> res unit;
  remote_drain : res unit
}.

Definition status_200 : bytes :=
  blit "HTTP/1.1 200 Connection established" ++ crlf ++ crlf.

Definition status_400 : bytes :=
  blit "HTTP/1.1 400 Bad Request" ++ crlf ++ crlf.

Definition status_502 : bytes :=
  blit "HTTP/1.1 502 Bad Gateway" ++ crlf ++ crlf.

Definition run : Type := outcome * list event.

(** [handle_tunnel], called when the client writer has been drained [k]
    times. *)
Definition handle_tunnel (w : world) (k : nat) (target_host : str)
  (target_port : Z) (up_kbps down_kbps : Q) : run :=
  match open_connection w target_host target_port with
  | Raise e =>
      if is_Exception e then
        match client_drain w k with
        | Raise CancelledError =>
            (Raised CancelledError,
             [EvConnect target_host target_port; EvWrite Client status_502])
        | _ =>
            (Returned,
             [EvConnect target_host target_port; EvWrite Client status_502;
              EvClose Client])
        end
      else (Raised e, [EvConnect target_host target_port])
  | Ok _ =>
      (Relaying,
       [EvConnect target_host target_port; EvRelay Up up_kbps;
        EvRelay Down down_kbps])
  end.

Section Handlers.
Context {py : PyStr}.

(** The header loop of [handle_client]: [headers] grows by one line per
    turn; a failed read or a bare CRLF ends it.  [None]: not ended yet. *)
Fixpoint read_headers (lines : list (res bytes)) (headers : bytes)
  : option (res bytes) :=
  match lines with
  | [] => None
  | Raise e :: _ => if is_Exception e then Some (Ok headers) else Some (Raise e)
  | Ok line :: rest =>
      if is_crlf line then Some (Ok (headers ++ line))
      else read_headers rest (headers ++ line)
  end.

(** What [handle_client] has when it comes to [if method == "CONNECT"]. *)
Inductive parsed : Type :=
| Stopped (r : run)
| Request (method target : str) (headers : bytes).

(** [handle_client] from its first line to [target = parts[1]]. *)
Definition read_request (w : world) : parsed :=
  match client_lines w with
  | [] => Stopped (Waiting, [])
  | Raise e :: _ =>
      if is_Exception e then Stopped (Returned, [EvClose Client])
      else Stopped (Raised e, [])
  | Ok header :: rest =>
      let first_line := strip (decode header) in
      match read_headers rest header with
      | None => Stopped (Waiting, [])
      | Some (Raise e) => Stopped (Raised e, [])
      | Some (Ok headers) =>
          let parts := split_ws first_line in
          if (length parts <? 2)%nat then Stopped (Returned, [EvClose Client])
          else Request (upper (nth 0 parts [])) (nth 1 parts []) headers
      end
  end.

(** The host and port of a CONNECT target, 443 by default. *)
Definition connect_target (target : str) : str * Z :=
  if has_colon target then
    (before_colon target,
     match after_colon target with
     | Some port_str =>
         match int_of port_str with
         | Some port => port
         | None => 443%Z
         end
     | None => 443%Z
     end)
  else (target, 443%Z).

(** The scan for the Host header: the first line that starts with [host:]
    once in lower case decides.  [line.split(':', 1)[1]] is taken on the
    line itself, not on its lower case: were there no colon in it, the
    [IndexError] would leave the handler. *)
Fixpoint scan_host (lines : list str) : res (option str) :=
  match lines with
  | [] => Ok None
  | line :: rest =>
      if startswith (lit "host:") (lower line) then
        match after_colon line with
        | Some value => Ok (Some (strip value))
        | None => Raise OtherError
        end
      else scan_host rest
  end.

(** [not host_header] *)
Definition falsy (host_header : option str) : bool :=
  match host_header with
  | None | Some [] => true
  | Some (_ :: _) => false
  end.

(** The host and port of a Host header value, 80 by default. *)
Definition forward_target (host_header : str) : str * Z :=
  (before_colon host_header,
   if has_colon host_header then
     match after_colon host_header with
     | Some port_str =>
         match int_of port_str with
         | Some port => port
         | None => 80%Z
         end
     | None => 80%Z
     end
   else 80%Z).

(** The [else] branch of [handle_client]: a request that is not CONNECT. *)
Definition forward (w : world) (headers : bytes) (up_kbps down_kbps : Q)
  : run :=
  match scan_host (split_crlf (decode headers)) with
  | Raise e => (Raised e, [])
  | Ok host_header =>
      if falsy host_header then
        match client_drain w 0 with
        | Ok _ => (Returned, [EvWrite Client status_400; EvClose Client])
        | Raise e => (Raised e, [EvWrite Client status_400])
        end
      else
        let '(target_host, target_port) :=
          forward_target (match host_header with Some h => h | None => [] end)
        in
        match open_connection w target_host target_port with
        | Raise e =>
            if is_Exception e then
              match client_drain w 0 with
              | Ok _ =>
                  (Returned,
                   [EvConnect target_host target_port;
                    EvWrite Client status_502; EvClose Client])
              | Raise e' =>
                  (Raised e',
                   [EvConnect target_host target_port;
                    EvWrite Client status_502])
              end
            else (Raised e, [EvConnect target_host target_port])
        | Ok _ =>
            match remote_drain w with
            | Ok _ =>
                (Relaying,
                 [EvConnect target_host target_port; EvWrite Remote headers;
                  EvRelay Up up_kbps; EvRelay Down down_kbps])
            | Raise e =>
                (Raised e,
                 [EvConnect target_host target_port; EvWrite Remote headers])
            end
        end
  end.

Definition after (tr : list event) (r : run) : run := (fst r, tr ++ snd r).

Definition handle_client (w : world) (up_kbps down_kbps : Q) : run :=
  match read_request w with
  | Stopped r => r
  | Request method target headers =>
      if str_eqb method (lit "CONNECT") then
        let '(host, port) := connect_target target in
        match client_drain w 0 with
        | Ok _ =>
            after [EvWrite Client status_200]
              (handle_tunnel w 1 host port up_kbps down_kbps)
        | Raise e => (Raised e, [EvWrite Client status_200])
        end
      else forward w headers up_kbps down_kbps
  end.

End Handlers.

(** The lines written to the client, the connection attempts and the relay
    tasks of a trace. *)
Definition client_writes (tr : list event) : list bytes :=
  flat_map (fun e => match e with EvWrite Client d => [d] | _ => [] end) tr.

Definition is_connect (e : event) : bool :=
  match e with EvConnect _ _ => true | _ => false end.

Definition is_relay (e : event) : bool :=
  match e with EvRelay _ _ => true | _ => false end.

Definition is_client_close (e : event) : bool :=
  match e with EvClose Client => true | _ => false end.

(** *** Sample connections *)

(** A line as [readuntil] gives it back, CRLF included. *)
Definition line (s : string) : res bytes := Ok (blit s ++ crlf).

(** The lines of a request end to end: its header block. *)
Definition block (lines : list (res bytes)) : bytes :=
  flat_map (fun r => match r with Ok l => l | Raise _ => [] end) lines.

Definition drained : nat -> res unit := fun _ => Ok tt.

(** [open_connection] fails, as with [ConnectionRefusedError]. *)
Definition unreachable : str -> Z -> res unit := fun _ _ => Raise OtherError.

Definition reachable : str -> Z -> res unit := fun _ _ => Ok tt.

Definition connect_request : list (res bytes) :=
  [line "CONNECT example.com:443 HTTP/1.1"; line "Host: example.com:443";
   Ok crlf].

Definition get_without_host : list (res bytes) :=
  [line "GET /index.html HTTP/1.1"; line "Accept: */*"; Ok crlf].

Definition get_blank_host : list (res bytes) :=
  [line "GET /index.html HTTP/1.1"; line "Host:   "; Ok crlf].

Definition get_two_hosts : list (res bytes) :=
  [line "GET /index.html HTTP/1.1"; line "Host: example.com"; line "Host: ";
   Ok crlf].

Definition w_connect_unreachable : world :=
  mkWorld connect_request drained unreachable (Ok tt).

(** the handler is cancelled while it flushes its second write *)
Definition w_connect_cancelled : world :=
  mkWorld connect_request
    (fun k => match k with O => Ok tt | _ => Raise CancelledError end)
    unreachable (Ok tt).

Definition w_without_host : world :=
  mkWorld get_without_host drained reachable (Ok tt).

Definition w_without_host_cancelled : world :=
  mkWorld get_without_host (fun _ => Raise CancelledError) reachable (Ok tt).

(** the client is gone when the answer is flushed *)
Definition w_without_host_reset : world :=
  mkWorld get_without_host (fun _ => Raise ConnectionResetError) reachable
    (Ok tt).

Definition w_blank_host : world :=
  mkWorld get_blank_host drained reachable (Ok tt).

Definition w_blank_host_cancelled : world :=
  mkWorld get_blank_host (fun _ => Raise CancelledError) reachable (Ok tt).

Definition w_two_hosts : world :=
  mkWorld get_two_hosts drained reachable (Ok tt).

(** the first line with [host:] in front, case set aside *)
Definition first_host_line {py : PyStr} (headers : bytes) : option str :=
  find (fun l => startswith (lit "host:") (lower l))
       (split_crlf (decode headers)).

End Proxy.

(** ** Runs of the relay: sizes, and what progress asks of the environment *)

Module Flow.
Import Aio Relay.

(** A write hands over at least one byte and at most [read_size]. *)
Definition sized_write (e : event) : Prop :=
  match e with
  | EvWrite chunk => (1 <= length chunk <= read_size)%nat
  | _ => True
  end.

(** The read being flushed has at most [read_size] bytes. *)
Definition short_read (c : config) : Prop :=
  match ctl c with
  | AtFlush data _ => (length data <= read_size)%nat
  | _ => True
  end.

Definition is_close (e : event) : bool :=
  match e with
  | EvClose => true
  | _ => false
  end.

(** A clock that gains at least [d] seconds from one reading to the next. *)
Definition advancing (d : Q) (w : world) : Prop :=
  forall k, monotonic w k + d <= monotonic w (S k).

(** A sink that takes every write and an event loop that lets every sleep
    end. *)
Definition obliging (w : world) : Prop :=
  forall k, drain w k = Ok tt /\ sleep w k = Ok tt.

(** A source of [n] reads that succeed, the last one empty. *)
Definition ending (n : nat) (w : world) : Prop :=
  read w n = Ok [] /\ forall k, (k < n)%nat -> exists data, read w k = Ok data.

(** From [c] to [c'] the relay has written [g] more bytes of [data], those
    at offset [idx], and stands at the top of the inner loop again. *)
Definition granted (w : world) (bps : Q) (data : bytes) (idx : nat)
  (c c' : config) : Prop :=
  exists g,
    (0 < g)%nat /\ (idx + g <= length data)%nat /\
    ctl c' = AtFlush data (idx + g) /\
    written (trace c') = written (trace c) ++ firstn g (skipn idx data) /\
    read_calls c' = read_calls c /\
    metered w bps c'.

End Flow.

(** ** What a handler's trace holds *)

Module Traffic.
Import Aio Text Proxy.

(** What a trace writes to the target. *)
Definition remote_writes (tr : list event) : list bytes :=
  flat_map (fun e => match e with EvWrite Remote d => [d] | _ => [] end) tr.

(** The connection attempts of a trace and its relay tasks, in order. *)
Definition attempts (tr : list event) : list event := filter is_connect tr.

Definition relays (tr : list event) : list event := filter is_relay tr.

Definition closes (tr : list event) : list event :=
  filter is_client_close tr.

(** The handler came to a [return]. *)
Definition returned (r : run) : bool :=
  match fst r with
  | Returned => true
  | _ => false
  end.

(** [b"".join(lines)] *)
Definition joined (lines : list bytes) : bytes := concat lines.

Definition request_line_only : list (res bytes) := [line "GET"; Ok crlf].

Definition w_request_line_only : world :=
  mkWorld request_line_only drained reachable (Ok tt).

End Traffic.

(** ** The listener: [start_server] *)

(** The awaits of [start_server] are questions to the environment, as for
    the coroutines above; [print] and the building of [addrs] are taken
    not to fail.  [async with server] is entered without an await of its
    own and left through [Server.__aexit__]. *)

Module Server.

(** What the awaits of [start_server] raise.  [errno] is [e.errno], which
    is [None] for an [OSError] built without one. *)
Inductive raised : Type :=
| OSError (errno : option Z)
| CancelledError
| OtherError.

Inductive answer : Type :=
| Fine
| Fails (e : raised).

(** [e.errno == 10048] *)
Definition errno_is (errno : option Z) (n : Z) : bool :=
  match errno with
  | Some k => (k =? n)%Z
  | None => false
  end.

Inductive message : Type :=
| Retrying      (* [[!] Port ... already in use. Retrying in 1 s...] *)
| StillInUse    (* [[x] Port ... is still in use. Another proxy running?] *)
| Listening     (* [[+] Proxy listening on ...] *)
| ShutDown.     (* [[*] Proxy server shut down.] *)

Inductive event : Type :=
| EvStart                   (* [asyncio.start_server] *)
| EvPrint (m : message)
| EvSleep (seconds : Q)     (* [asyncio.sleep] *)
| EvServe                   (* [server.serve_forever] *)
| EvClose                   (* [server.close] *)
| EvWaitClosed.             (* [server.wait_closed] *)

(** The environment: the results of the successive awaits. *)
Record world : Type := mkWorld {
  start : nat -> answer;
  sleep : nat -> answer;
  serve_forever : answer;
  wait_closed : nat -> answer
}.

(** [NoServer]: the [for] loop ran out with [server] unbound, and the line
    after it raises [UnboundLocalError]. *)
Inductive outcome : Type :=
| Returned
| Raised (e : raised)
| NoServer.

(** How the [for] loop is left. *)
Inductive looped : Type :=
| Break
| Left (o : outcome)
| Exhausted.

Definition range (n : nat) : list nat := seq 0 n.

(** The loop [for attempt in ...], entered after [calls] attempts. *)
Fixpoint attempts (w : world) (todo : list nat) (calls : nat)
  : looped * list event :=
  match todo with
  | [] => (Exhausted, [])
  | attempt :: rest =>
      match start w calls with
      | Fine => (Break, [EvStart])
      | Fails (OSError errno) =>
          if errno_is errno 10048 then
            if (attempt =? 0)%nat then
              match sleep w calls with
              | Fine =>
                  let '(l, tr) := attempts w rest (S calls) in
                  (l, [EvStart; EvPrint Retrying; EvSleep 1] ++ tr)
              | Fails e =>
                  (Left (Raised e), [EvStart; EvPrint Retrying; EvSleep 1])
              end
            else (Left Returned, [EvStart; EvPrint StillInUse])
          else (Left (Raised (OSError errno)), [EvStart])
      | Fails e => (Left (Raised e), [EvStart])
      end
  end.

(** The end of [async with server]: [Server.__aexit__] closes the server
    and awaits [wait_closed]; an exception on its way out of the block goes
    on unless this raises another. *)
Definition aexit (w : world) (calls : nat) (pending : option raised)
  (tr : list event) : outcome * list event :=
  match wait_closed w calls with
  | Fine =>
      (match pending with
       | None => Returned
       | Some e => Raised e
       end, tr ++ [EvClose; EvWaitClosed])
  | Fails e => (Raised e, tr ++ [EvClose; EvWaitClosed])
  end.

(** The block [async with server: try ... except ... finally ...]. *)
Definition serve (w : world) : outcome * list event :=
  let pending :=
    match serve_forever w with
    | Fine => None
    | Fails CancelledError => None
    | Fails e => Some e
    end in
  match wait_closed w 0 with
  | Fine =>
      aexit w 1 pending [EvServe; EvClose; EvWaitClosed; EvPrint ShutDown]
  | Fails e => aexit w 1 (Some e) [EvServe; EvClose; EvWaitClosed]
  end.

Definition start_server (w : world) : outcome * list event :=
  match attempts w (range 2) 0 with
  | (Break, tr) =>
      let '(o, tr') := serve w in (o, tr ++ EvPrint Listening :: tr')
  | (Left o, tr) => (o, tr)
  | (Exhausted, tr) => (NoServer, tr)
  end.

(** The errors [except OSError as e: if e.errno == 10048] answers with a
    second attempt or a [return]; every other one is raised again or was
    never caught. *)
Definition address_in_use (e : raised) : bool :=
  match e with
  | OSError errno => errno_is errno 10048
  | _ => false
  end.

Definition is_start (e : event) : bool :=
  match e with EvStart => true | _ => false end.

Definition is_sleep (e : event) : bool :=
  match e with EvSleep _ => true | _ => false end.

(** [errno] 98 is [EADDRINUSE] on Linux, 48 on macOS; 10048 is
    [WSAEADDRINUSE] on Windows. *)
Definition busy_once (errno : Z) : world :=
  mkWorld (fun k => match k with
                    | O => Fails (OSError (Some errno))
                    | _ => Fine
                    end)
          (fun _ => Fine) (Fails CancelledError) (fun _ => Fine).

End Server.

(** ** The launcher: the rates [throttleW.py] hands to the proxy *)

(** The entries of the window are numbers: floats read as exact rationals,
    as everywhere.  A [nan] or an infinity, which [float] accepts and on
    which [round] raises, is outside the model. *)

Module Launcher.






(** What the proxy makes of [--up] and [--down]: [str] of an [int], read
    back by [argparse] with [type=float]. *)
Definition rate_kbps (adj : Z) : Q := inject_Z adj.

End Launcher.


(** * The relay: proofs *)

Section RelayFacts.
Import Aio Relay.

(** ** Arithmetic of one grant *)

(** On a value that is not negative [int] is the floor. *)
Lemma py_int_nonneg (x : Q) : 0 <= x -> py_int x = Qfloor x.
Proof.
  destruct x as [n d]. unfold py_int, Qfloor, Qle. simpl. intros H.
  apply Z.quot_div_nonneg; lia.
Qed.

Lemma py_int_pos (x : Q) : (0 < py_int x)%Z -> 0 < x.
Proof.
  destruct x as [n d]. unfold py_int, Qlt. simpl. intros H.
  destruct (Z.le_gt_cases n 0) as [Hn | Hn]; [| lia].
  exfalso.
  assert (Z.quot n (Z.pos d) <= 0)%Z; [| lia].
  apply Z.quot_le_upper_bound; lia.
Qed.

Lemma py_int_below_one (x : Q) : x < 1 -> (py_int x <= 0)%Z.
Proof.
  destruct x as [n d]. unfold py_int, Qlt. simpl. intros H.
  destruct (Z.le_gt_cases n 0) as [Hn | Hn].
  - apply Z.quot_le_upper_bound; lia.
  - rewrite Z.quot_small; lia.
Qed.

Lemma refill_le_cap (bps t l now : Q) : refill bps t l now <= capacity bps.
Proof.
  unfold refill, Qgtb, capacity.
  destruct (Qle_bool _ _) eqn:E; simpl.
  - apply Qle_bool_iff in E. exact E.
  - lra.
Qed.

Lemma refill_le_credit (bps t l now : Q) :
  0 < bps -> refill bps t l now <= t + (now - l) * bps.
Proof.
  intros Hb. unfold refill, Qgtb.
  destruct (Qle_bool _ _) eqn:E; simpl.
  - lra.
  - assert (~ t + (now - l) * bps <= 2 * bps) as N.
    { intros H. apply Qle_bool_iff in H. congruence. }
    apply Qnot_le_lt in N. lra.
Qed.

Lemma refill_nonneg (bps t l now : Q) :
  0 < bps -> 0 <= t -> l <= now -> 0 <= refill bps t l now.
Proof.
  intros Hb Ht Hl. unfold refill, Qgtb.
  assert (0 <= (now - l) * bps) by (apply Qmult_le_0_compat; lra).
  destruct (Qle_bool _ _); simpl; lra.
Qed.

Lemma min3_le_tokens (a b c : Q) : py_min3 a b c <= a.
Proof.
  unfold py_min3. eapply Qle_trans; [apply Q.le_min_l | apply Q.le_min_l].
Qed.

Lemma min3_le_chunk (a b c : Q) : py_min3 a b c <= b.
Proof.
  unfold py_min3. eapply Qle_trans; [apply Q.le_min_l | apply Q.le_min_r].
Qed.

Lemma min3_le_rest (a b c : Q) : py_min3 a b c <= c.
Proof. unfold py_min3. apply Q.le_min_r. Qed.

Lemma floor_le_Z (x : Q) (z : Z) : x <= inject_Z z -> (Qfloor x <= z)%Z.
Proof.
  intros H. rewrite <- (Qfloor_Z z). apply Qfloor_resp_le. exact H.
Qed.

(** A grant is the floor of the minimum and is below each of its bounds. *)
Lemma allowance_granted (t : Q) (len idx : nat) :
  (0 < allowance t len idx)%Z ->
  allowance t len idx
    = Qfloor (py_min3 t (inject_Z max_chunk)
                (inject_Z (Z.of_nat len - Z.of_nat idx))) /\
  inject_Z (allowance t len idx) <= t /\
  (allowance t len idx <= max_chunk)%Z /\
  (allowance t len idx <= Z.of_nat len - Z.of_nat idx)%Z.
Proof.
  unfold allowance. intros H.
  set (x := py_min3 _ _ _) in *.
  apply py_int_pos in H.
  rewrite (py_int_nonneg x) by lra.
  repeat split.
  - eapply Qle_trans; [apply Qfloor_le | apply min3_le_tokens].
  - apply floor_le_Z, min3_le_chunk.
  - apply floor_le_Z, min3_le_rest.
Qed.

Lemma allowance_floor (t : Q) (len idx : nat) :
  0 <= t -> (idx < len)%nat ->
  allowance t len idx
    = Qfloor (py_min3 t (inject_Z max_chunk)
                (inject_Z (Z.of_nat len - Z.of_nat idx))) /\
  (0 <= allowance t len idx)%Z.
Proof.
  intros Ht Hi. unfold allowance.
  set (x := py_min3 _ _ _).
  assert (0 <= x) as Hx.
  { unfold x, py_min3. apply Q.min_glb; [apply Q.min_glb |].
    - exact Ht.
    - unfold max_chunk. change 0 with (inject_Z 0). rewrite <- Zle_Qle. lia.
    - change 0 with (inject_Z 0). rewrite <- Zle_Qle. lia. }
  rewrite (py_int_nonneg x Hx). split; [reflexivity |].
  change 0%Z with (Qfloor 0). apply Qfloor_resp_le. exact Hx.
Qed.

(** ** Traces and runs *)

Lemma written_app (tr1 tr2 : list event) :
  written (tr1 ++ tr2) = written tr1 ++ written tr2.
Proof.
  induction tr1 as [| e tr1 IH]; simpl; [reflexivity |].
  destruct e; rewrite IH; try reflexivity. now rewrite app_assoc.
Qed.

Lemma received_app (tr1 tr2 : list event) :
  received (tr1 ++ tr2) = received tr1 ++ received tr2.
Proof.
  induction tr1 as [| e tr1 IH]; simpl; [reflexivity |].
  destruct e; rewrite IH; try reflexivity. now rewrite app_assoc.
Qed.

Lemma chunk_length (data : bytes) (idx : nat) (a : Z) :
  (0 < a <= Z.of_nat (length data) - Z.of_nat idx)%Z ->
  Z.of_nat (length (firstn (Z.to_nat a) (skipn idx data))) = a.
Proof.
  intros H. rewrite length_firstn, length_skipn. lia.
Qed.

Lemma run_S (w : world) (rate_kbps : Q) (n : nat) :
  token_bucket_copy w rate_kbps (S n)
  = step w (bytes_per_second rate_kbps) (token_bucket_copy w rate_kbps n).
Proof. reflexivity. Qed.

Lemma bps_pos (rate_kbps : Q) : 0 < rate_kbps -> 0 < bytes_per_second rate_kbps.
Proof.
  intros H. unfold bytes_per_second, KBPS_TO_BPS.
  apply Qlt_shift_div_l; lra.
Qed.

Lemma start_running (w : world) (rate_kbps : Q) :
  0 < rate_kbps ->
  start w rate_kbps
  = mkConfig AtRead (bytes_per_second rate_kbps) (monotonic w 0) 1 0 0 0 [].
Proof.
  intros H. unfold start.
  destruct (Qle_bool rate_kbps 0) eqn:E; [| reflexivity].
  apply Qle_bool_iff in E. lra.
Qed.

(** ** The bucket and the budget *)

Section Metering.
Variable w : world.
Variable bps : Q.
Hypothesis bps_gt_0 : 0 < bps.
Hypothesis clock : monotone w.

Lemma flush_once_metered (data : bytes) (idx : nat) (c : config) :
  ctl c = AtFlush data idx -> (idx < length data)%nat ->
  metered w bps c -> metered w bps (flush_once w bps data idx c).
Proof.
  intros Hc Hi (H0 & Hcap & (k & Hk & Hl) & Hb).
  unfold owed in Hb. rewrite Hc in Hb.
  unfold flush_once. rewrite Hk.
  set (now := monotonic w (S k)).
  assert (last c <= now) as Hmono by (rewrite Hl; apply clock).
  set (t2 := refill bps (tokens c) (last c) now).
  pose proof (refill_le_cap bps (tokens c) (last c) now) as H2.
  pose proof (refill_le_credit bps (tokens c) (last c) now bps_gt_0) as H3.
  pose proof (refill_nonneg bps (tokens c) (last c) now bps_gt_0 H0 Hmono)
    as H4.
  fold t2 in H2, H3, H4.
  destruct (Z.leb_spec (allowance t2 (length data) idx) 0) as [Ha | Ha].
  - destruct (sleep w (sleep_calls c)) as [[] | e];
      (split; [| split; [| split]]); simpl; try assumption;
      try (exists (S k); split; reflexivity);
      unfold sent, owed; simpl; rewrite written_app, app_nil_r;
      unfold sent in Hb; lra.
  - destruct (allowance_granted _ _ _ Ha) as (_ & Ht & _ & Hr).
    set (a := allowance t2 (length data) idx) in *.
    assert (0 < inject_Z a) as Hpos.
    { change 0 with (inject_Z 0). rewrite <- Zlt_Qlt. exact Ha. }
    assert (sent c + inject_Z a + t2 - inject_Z a
            <= bps + (now - monotonic w 0) * bps) as Hnew.
    { unfold sent in *. lra. }
    assert (forall o tok,
      sent (mkConfig o tok now (S (S k)) (read_calls c) (S (drain_calls c))
              (sleep_calls c)
              (trace c ++ [EvWrite (firstn (Z.to_nat a) (skipn idx data))]))
      == sent c + inject_Z a) as Hs.
    { intros o tok. unfold sent. simpl.
      rewrite written_app. simpl. rewrite app_nil_r, length_app.
      rewrite Nat2Z.inj_add, chunk_length by lia.
      rewrite inject_Z_plus. reflexivity. }
    destruct (drain w (drain_calls c)) as [[] | e].
    + split; [| split; [| split]]; simpl.
      * lra.
      * lra.
      * exists (S k); split; reflexivity.
      * rewrite Hs. unfold owed; simpl. lra.
    + destruct e; (split; [| split; [| split]]); simpl; try assumption;
        try (exists (S k); split; reflexivity);
        rewrite Hs; unfold owed; simpl; lra.
Qed.

Lemma step_metered (c : config) :
  metered w bps c -> metered w bps (step w bps c).
Proof.
  intros H. unfold step.
  destruct (ctl c) as [| data idx | o] eqn:Hc.
  - destruct H as (H0 & Hcap & Hk & Hb).
    unfold owed in Hb. rewrite Hc in Hb.
    destruct (reader_read w (read_calls c) read_size) as [data | e].
    + split; [| split; [| split]]; simpl; try assumption.
      unfold sent, owed in *. simpl. rewrite written_app, app_nil_r.
      destruct data; lra.
    + split; [| split; [| split]]; simpl; try assumption.
      unfold sent, owed in *. simpl. lra.
  - destruct (Nat.ltb_spec idx (length data)) as [Hi | Hi].
    + now apply flush_once_metered.
    + destruct H as (H0 & Hcap & Hk & Hb).
      unfold owed in Hb. rewrite Hc in Hb.
      split; [| split; [| split]]; simpl; assumption.
  - exact H.
Qed.

End Metering.

Lemma run_metered (w : world) (rate_kbps : Q) (n : nat) :
  0 < rate_kbps -> monotone w ->
  metered w (bytes_per_second rate_kbps) (token_bucket_copy w rate_kbps n).
Proof.
  intros Hr Hm. induction n as [| n IH].
  - unfold token_bucket_copy. simpl. rewrite (start_running w _ Hr).
    pose proof (bps_pos _ Hr) as Hb.
    unfold metered, sent, owed, capacity; simpl.
    split; [lra |]. split; [lra |]. split.
    + exists 0%nat. split; reflexivity.
    + unfold inject_Z. lra.
  - rewrite run_S. apply step_metered; auto using bps_pos.
Qed.

(** ** The order of the bytes *)

Lemma flush_once_in_order (w : world) (bps : Q) (data : bytes) (idx : nat)
  (c : config) :
  ctl c = AtFlush data idx -> (idx < length data)%nat ->
  in_order c -> in_order (flush_once w bps data idx c).
Proof.
  intros Hc Hi H. unfold in_order in H. rewrite Hc in H.
  destruct H as [Hle Heq]. unfold flush_once.
  set (t2 := refill _ _ _ _).
  destruct (Z.leb_spec (allowance t2 (length data) idx) 0) as [Ha | Ha].
  - destruct (sleep w (sleep_calls c)) as [[] | e]; unfold in_order; simpl;
      rewrite written_app, received_app; simpl; rewrite !app_nil_r.
    + split; assumption.
    + destruct e; simpl; eauto.
  - destruct (allowance_granted _ _ _ Ha) as (_ & _ & _ & Hr).
    set (a := allowance t2 (length data) idx) in *.
    assert (received (trace c)
            = (written (trace c) ++ firstn (Z.to_nat a) (skipn idx data))
                ++ skipn (idx + Z.to_nat a) data) as Hsplit.
    { rewrite Heq, <- app_assoc. f_equal.
      rewrite Nat.add_comm, <- skipn_skipn. symmetry. apply firstn_skipn. }
    destruct (drain w (drain_calls c)) as [[] | []]; unfold in_order; simpl;
      rewrite written_app, received_app; simpl; rewrite !app_nil_r;
      eauto.
    split; [lia | exact Hsplit].
Qed.

Lemma step_in_order (w : world) (bps : Q) (c : config) :
  in_order c -> in_order (step w bps c).
Proof.
  intros H. unfold step.
  destruct (ctl c) as [| data idx | o] eqn:Hc.
  - unfold in_order in H. rewrite Hc in H.
    destruct (reader_read w (read_calls c) read_size) as [data | e].
    + unfold in_order; simpl. rewrite written_app, received_app. simpl.
      rewrite !app_nil_r. destruct data as [| b data]; simpl.
      * now rewrite app_nil_r.
      * split; [lia | now rewrite H].
    + unfold in_order; simpl.
      destruct e; simpl; exists []; now rewrite app_nil_r.
  - destruct (Nat.ltb_spec idx (length data)) as [Hi | Hi].
    + now apply flush_once_in_order.
    + unfold in_order in *. rewrite Hc in H. simpl. destruct H as [Hle Heq].
      rewrite Heq, skipn_all2 by lia. now rewrite app_nil_r.
  - exact H.
Qed.

Lemma start_in_order (w : world) (rate_kbps : Q) : in_order (start w rate_kbps).
Proof.
  unfold start.
  destruct (Qle_bool rate_kbps 0); [| reflexivity].
  destruct (drain w 0) as [[] | e]; unfold in_order; simpl; exists [];
    reflexivity.
Qed.

Lemma run_in_order (w : world) (rate_kbps : Q) (n : nat) :
  in_order (token_bucket_copy w rate_kbps n).
Proof.
  induction n as [| n IH]; [apply start_in_order |].
  rewrite run_S. now apply step_in_order.
Qed.

Lemma step_bounded_reads (w : world) (bps : Q) (c : config) :
  Forall bounded_read (trace c) -> Forall bounded_read (trace (step w bps c)).
Proof.
  intros H. unfold step.
  destruct (ctl c) as [| data idx | o]; [| | exact H].
  - unfold reader_read. destruct (read w (read_calls c)) as [data | e];
      cbn [trace]; [| exact H].
    apply Forall_app. split; [exact H |].
    constructor; [| constructor].
    unfold bounded_read. rewrite length_firstn. apply Nat.le_min_l.
  - destruct (idx <? length data)%nat; [| exact H].
    unfold flush_once.
    destruct (_ <=? 0)%Z.
    + destruct (sleep w _) as [[] | e]; simpl; apply Forall_app; split;
        try exact H; repeat constructor.
    + destruct (drain w _) as [[] | []]; simpl; apply Forall_app; split;
        try exact H; repeat constructor.
Qed.

Lemma run_bounded_reads (w : world) (rate_kbps : Q) (n : nat) :
  Forall bounded_read (trace (token_bucket_copy w rate_kbps n)).
Proof.
  induction n as [| n IH].
  - unfold token_bucket_copy, start. simpl.
    destruct (Qle_bool rate_kbps 0); [| constructor].
    destruct (drain w 0); simpl; repeat constructor.
  - rewrite run_S. now apply step_bounded_reads.
Qed.

(** ** Exceptions inside the [try] *)

Lemma except_clauses_contained (e e' : exn) :
  except_clauses e = Raised e' -> e' = CancelledError.
Proof. destruct e; simpl; congruence. Qed.

Lemma step_contained (w : world) (bps : Q) (c : config) :
  contained c -> contained (step w bps c).
Proof.
  intros H e. unfold step.
  destruct (ctl c) as [| data idx | o] eqn:Hc.
  - destruct (reader_read w _ _) as [[| b data] | e0]; simpl; intros E;
      try discriminate.
    injection E as E. eapply except_clauses_contained; eauto.
  - destruct (idx <? length data)%nat; simpl; [| discriminate].
    unfold flush_once.
    destruct (_ <=? 0)%Z.
    + destruct (sleep w _) as [[] | e0]; simpl; intros E; try discriminate.
      injection E as E. eapply except_clauses_contained; eauto.
    + destruct (drain w _) as [[] | []]; simpl; intros E; congruence.
  - intros E. apply H. congruence.
Qed.

Lemma run_contained (w : world) (rate_kbps : Q) (n : nat) :
  0 < rate_kbps -> contained (token_bucket_copy w rate_kbps n).
Proof.
  intros Hr. induction n as [| n IH].
  - unfold token_bucket_copy. simpl. rewrite start_running by exact Hr.
    intros e. simpl. discriminate.
  - rewrite run_S. now apply step_contained.
Qed.

(** ** A bucket of less than one byte *)

(** A bucket that cannot hold one byte never grants one. *)
Lemma step_starved (w : world) (bps : Q) (c : config) :
  capacity bps < 1 -> written (trace c) = [] ->
  written (trace (step w bps c)) = [].
Proof.
  intros Hcap H. unfold step.
  destruct (ctl c) as [| data idx | o]; [| | exact H].
  - destruct (reader_read w _ _) as [data | e]; simpl; [| exact H].
    rewrite written_app, H. reflexivity.
  - destruct (idx <? length data)%nat; [| exact H].
    unfold flush_once.
    set (t2 := refill _ _ _ _).
    assert (allowance t2 (length data) idx <= 0)%Z as Ha.
    { apply py_int_below_one.
      eapply Qle_lt_trans; [apply min3_le_tokens |].
      eapply Qle_lt_trans; [apply refill_le_cap | exact Hcap]. }
    apply Z.leb_le in Ha. rewrite Ha.
    destruct (sleep w _) as [[] | e]; simpl; rewrite written_app, H;
      reflexivity.
Qed.

Lemma run_starved (w : world) (rate_kbps : Q) (n : nat) :
  0 < rate_kbps -> capacity (bytes_per_second rate_kbps) < 1 ->
  written (trace (token_bucket_copy w rate_kbps n)) = [].
Proof.
  intros Hr Hcap. induction n as [| n IH].
  - unfold token_bucket_copy. simpl. now rewrite start_running.
  - rewrite run_S. now apply step_starved.
Qed.

(** ** The properties of the relay *)






(** ** The refusal branch *)

Lemma start_refusing (w : world) (rate_kbps : Q) :
  rate_kbps <= 0 ->
  start w rate_kbps
  = match drain w 0 with
    | Ok _ => mkConfig (Done (Returned Refused)) 0 0 0 0 1 0 [EvClose]
    | Raise e => mkConfig (Done (Raised e)) 0 0 0 0 1 0 []
    end.
Proof.
  intros H. unfold start. apply Qle_bool_iff in H. now rewrite H.
Qed.

Lemma run_done (w : world) (rate_kbps : Q) (n : nat) (o : outcome) :
  ctl (start w rate_kbps) = Done o ->
  token_bucket_copy w rate_kbps n = start w rate_kbps.
Proof.
  intros H. induction n as [| n IH]; [reflexivity |].
  rewrite run_S, IH. unfold step. now rewrite H.
Qed.


(** C4.  A refused direction.  With a rate of zero or less the relay runs no
    loop iteration: it never reads from the source and never writes a
    payload byte.  It awaits one [drain] of its writer; when that completes
    it closes the writer and returns at once; when the relay is cancelled
    in that [drain], the cancellation goes to the caller and the relay
    itself does not close the writer. *)
Theorem refused_direction :
  forall (w : world) (rate_kbps : Q) (n : nat),
    rate_kbps <= 0 ->
    let c := token_bucket_copy w rate_kbps n in
    c = token_bucket_copy w rate_kbps 0 /\
    read_calls c = 0%nat /\
    existsb is_io (trace c) = false /\
    (drain w 0 = Ok tt ->
     ctl c = Done (Returned Refused) /\ trace c = [EvClose]) /\
    (drain w 0 = Raise CancelledError ->
     ctl c = Done (Raised CancelledError) /\ trace c = []).
Proof.
  intros w rate_kbps n Hr c.
  pose proof (start_refusing w rate_kbps Hr) as Hs.
  assert (c = start w rate_kbps) as Hc.
  { unfold c. destruct (drain w 0) as [[] | e] eqn:Hd;
      eapply run_done; rewrite Hs; reflexivity. }
  split; [exact Hc |].
  rewrite Hc, Hs.
  destruct (drain w 0) as [[] | e]; simpl; repeat split; congruence.
Qed.

(** At rate 0, with a sink that drains: closed and returned, nothing read. *)
Lemma refused_direction_witness :
  0 <= 0 /\
  ctl (token_bucket_copy w_steady 0 5) = Done (Returned Refused) /\
  trace (token_bucket_copy w_steady 0 5) = [EvClose] /\
  read_calls (token_bucket_copy w_steady 0 5) = 0%nat.
Proof.
  assert (0 <= 0) as Hr by (unfold Qle; simpl; lia).
  destruct (refused_direction w_steady 0 5 Hr) as (_ & Hn & _ & Hok & _).
  destruct (Hok eq_refl) as [Hctl Htr].
  split; [exact Hr |]. split; [exact Hctl |]. split; [exact Htr | exact Hn].
Defined.

(** C4 in the wording of the specification does not hold.  At rate 0, a
    relay cancelled in its [drain] never closes its writer and does not
    return: it raises.  So does a relay whose [drain] fails because the peer
    of the writer is gone. *)
Lemma refused_direction_cancelled :
  0 <= 0 /\
  (forall n,
     ctl (token_bucket_copy w_cancelled 0 n) = Done (Raised CancelledError) /\
     ~ In EvClose (trace (token_bucket_copy w_cancelled 0 n))) /\
  (forall n,
     ctl (token_bucket_copy w_reset 0 n) = Done (Raised ConnectionResetError) /\
     ~ In EvClose (trace (token_bucket_copy w_reset 0 n))).
Proof.
  split; [unfold Qle; simpl; lia |].
  split; intros n.
  - rewrite (run_done w_cancelled 0 n (Raised CancelledError) eq_refl).
    split; [reflexivity |]. simpl. tauto.
  - rewrite (run_done w_reset 0 n (Raised ConnectionResetError) eq_refl).
    split; [reflexivity |]. simpl. tauto.
Qed.

(** C5.  The stream is kept.  When a relay ends on an empty read, without an
    error and without cancellation, the chunks written to the sink, put end
    to end, are the bytes read from the source, in order: nothing lost,
    doubled or moved.  No read gives more than 8192 bytes.  Each time a read
    is issued, all that was read before is written; an empty read ends the
    relay at once.  At every point of every execution the bytes written are
    a prefix of the bytes read. *)
Theorem relay_preserves_stream :
  forall (w : world) (rate_kbps : Q) (n : nat),
    let run := token_bucket_copy w rate_kbps in
    ctl (run n) = Done (Returned EndOfStream) ->
    written (trace (run n)) = received (trace (run n)) /\
    Forall bounded_read (trace (run n)) /\
    (forall m,
       ctl (run m) = AtRead ->
       written (trace (run m)) = received (trace (run m)) /\
       (read w (read_calls (run m)) = Ok [] ->
        ctl (run (S m)) = Done (Returned EndOfStream))) /\
    (forall m, exists rest,
       received (trace (run m)) = written (trace (run m)) ++ rest).
Proof.
  intros w rate_kbps n run Hend.
  split.
  { pose proof (run_in_order w rate_kbps n) as H.
    unfold in_order in H. fold run in H. rewrite Hend in H. now symmetry. }
  split; [apply run_bounded_reads |].
  split.
  - intros m Hm.
    pose proof (run_in_order w rate_kbps m) as H.
    unfold in_order in H. fold run in H. rewrite Hm in H.
    split; [now symmetry |].
    intros Hr. unfold run. rewrite run_S. fold run.
    unfold step, reader_read. rewrite Hm, Hr. reflexivity.
  - intros m.
    pose proof (run_in_order w rate_kbps m) as H.
    unfold in_order in H. fold run in H.
    destruct (ctl (run m)) as [| data idx | [[] |]].
    + exists []. now rewrite app_nil_r.
    + destruct H as [_ H]. eauto.
    + exact H.
    + exists []. now rewrite app_nil_r.
    + exact H.
    + exact H.
    + exact H.
Qed.

(** 3000 bytes at 8 kbps: all are through after seven iterations. *)
Lemma relay_preserves_stream_witness :
  ctl (token_bucket_copy w_steady 8 7) = Done (Returned EndOfStream) /\
  written (trace (token_bucket_copy w_steady 8 7)) = payload 3000 /\
  written (trace (token_bucket_copy w_steady 8 7))
  = received (trace (token_bucket_copy w_steady 8 7)).
Proof.
  assert (ctl (token_bucket_copy w_steady 8 7) = Done (Returned EndOfStream))
    as Hend by (vm_compute; reflexivity).
  destruct (relay_preserves_stream w_steady 8 7 Hend) as (Heq & _).
  split; [exact Hend |]. split; [vm_compute; reflexivity | exact Heq].
Defined.



(** C7.  An exception that is not a cancellation leaves the relay.  The
    [rate_kbps <= 0] branch awaits [writer.drain()] before the [try] begins;
    with a sink whose peer is gone that [drain] raises
    [ConnectionResetError], which [token_bucket_copy] lets through to its
    caller, without a [close]. *)
Theorem refusal_leaks_reset :
  forall n,
    let c := token_bucket_copy w_reset 0 n in
    ctl c = Done (Raised ConnectionResetError) /\ trace c = [].
Proof.
  intros n c.
  assert (c = start w_reset 0) as Hc.
  { unfold c. eapply run_done. reflexivity. }
  rewrite Hc. split; reflexivity.
Qed.

(** Inside the [try], that is with a positive rate, the relay behaves as
    C7 says: it lets nothing out but cancellation; a cancellation raised by
    an awaited read, sleep or drain is raised again; a reset or any other
    failure ends the relay with a plain return, as an empty read does. *)
Lemma try_block_contains :
  forall (w : world) (rate_kbps : Q) (n : nat),
    0 < rate_kbps ->
    let bps := bytes_per_second rate_kbps in
    let c := token_bucket_copy w rate_kbps n in
    let c' := token_bucket_copy w rate_kbps (S n) in
    (forall e, ctl c = Done (Raised e) -> e = CancelledError) /\
    (raised_at w bps c = Some CancelledError ->
     ctl c' = Done (Raised CancelledError)) /\
    (raised_at w bps c = Some ConnectionResetError ->
     exists how, ctl c' = Done (Returned how)) /\
    (raised_at w bps c = Some OtherError ->
     ctl c' = Done (Returned (Suppressed OtherError))) /\
    (ctl c = AtRead -> read w (read_calls c) = Ok [] ->
     ctl c' = Done (Returned EndOfStream)).
Proof.
  intros w rate_kbps n Hr bps c c'.
  split; [apply run_contained; exact Hr |].
  unfold c'. rewrite run_S. fold bps c.
  unfold raised_at, step, reader_read, flush_once.
  destruct (ctl c) as [| data idx | o].
  - destruct (read w (read_calls c)) as [[| b data] | []]; simpl;
      repeat split; try congruence; eauto.
  - destruct (idx <? length data)%nat; simpl.
    + destruct (_ <=? 0)%Z.
      * destruct (sleep w (sleep_calls c)) as [[] | []]; simpl;
          repeat split; try congruence; eauto.
      * destruct (drain w (drain_calls c)) as [[] | []]; simpl;
          repeat split; try congruence; eauto.
    + repeat split; congruence.
  - repeat split; congruence.
Qed.


End RelayFacts.

(** * The handlers: proofs *)

Section ProxyFacts.
Import Aio Text Proxy.

Section HandlerFacts.
Context {py : PyStr}.

Lemma scan_host_find (lines : list str) :
  scan_host lines
  = match find (fun l => startswith (lit "host:") (lower l)) lines with
    | None => Ok None
    | Some l =>
        match after_colon l with
        | Some value => Ok (Some (strip value))
        | None => Raise OtherError
        end
    end.
Proof.
  induction lines as [| l lines IH]; cbn [scan_host find]; [reflexivity |].
  destruct (startswith (lit "host:") (lower l)); [reflexivity | exact IH].
Qed.

(** No first Host line: no line of the block starts with [host:]. *)
Lemma first_host_line_none (headers : bytes) :
  first_host_line headers = None <->
  forall l, In l (split_crlf (decode headers)) ->
            startswith (lit "host:") (lower l) = false.
Proof.
  unfold first_host_line. split; [apply find_none |].
  induction (split_crlf (decode headers)) as [| a l IH]; cbn [find];
    intros H; [reflexivity |].
  rewrite (H a) by now left. apply IH. intros x Hx. apply H. now right.
Qed.

(** What the [else] branch does once [not host_header] holds. *)
Lemma forward_bad_request (w : world) (headers : bytes) (up down : Q)
  (host_header : option str) :
  scan_host (split_crlf (decode headers)) = Ok host_header ->
  falsy host_header = true ->
  forward w headers up down
  = match client_drain w 0 with
    | Ok _ => (Returned, [EvWrite Client status_400; EvClose Client])
    | Raise e => (Raised e, [EvWrite Client status_400])
    end.
Proof.
  intros Hs Hf. unfold forward. now rewrite Hs, Hf.
Qed.

Lemma bad_request_shape (w : world) (r : run) :
  r = match client_drain w 0 with
      | Ok _ => (Returned, [EvWrite Client status_400; EvClose Client])
      | Raise e => (Raised e, [EvWrite Client status_400])
      end ->
  client_writes (snd r) = [status_400] /\
  existsb is_connect (snd r) = false /\
  existsb is_relay (snd r) = false /\
  (client_drain w 0 = Ok tt ->
   r = (Returned, [EvWrite Client status_400; EvClose Client])) /\
  (client_drain w 0 = Raise CancelledError ->
   r = (Raised CancelledError, [EvWrite Client status_400])).
Proof.
  intros ->. destruct (client_drain w 0) as [[] | e]; simpl;
    repeat split; congruence.
Qed.

End HandlerFacts.

(** ** The properties of the handlers *)

(** C8.  No Host header.  For a request that is not CONNECT and whose header
    block has no line that starts with [host:] once in lower case (no first
    Host line, see [first_host_line_none]), the proxy
    writes exactly one line to the client, [HTTP/1.1 400 Bad Request], and
    attempts no outbound connection and starts no relay.  Once that line is
    flushed it closes the connection and returns; cancelled while flushing,
    it lets the cancellation through and does not close. *)
Theorem missing_host_bad_request :
  forall (py : PyStr) (w : world) (up_kbps down_kbps : Q)
         (method target : str) (headers : bytes),
    read_request w = Request method target headers ->
    str_eqb method (lit "CONNECT") = false ->
    first_host_line headers = None ->
    let r := handle_client w up_kbps down_kbps in
    client_writes (snd r) = [status_400] /\
    existsb is_connect (snd r) = false /\
    existsb is_relay (snd r) = false /\
    (client_drain w 0 = Ok tt ->
     r = (Returned, [EvWrite Client status_400; EvClose Client])) /\
    (client_drain w 0 = Raise CancelledError ->
     r = (Raised CancelledError, [EvWrite Client status_400])).
Proof.
  intros py w up down method target headers Hreq Hm Hnone r.
  apply bad_request_shape.
  unfold r, handle_client. rewrite Hreq, Hm.
  apply forward_bad_request with (host_header := None); [| reflexivity].
  unfold first_host_line in Hnone.
  now rewrite scan_host_find, Hnone.
Qed.

(** [GET /index.html] with an [Accept] header only: 400 and closed. *)
Lemma missing_host_bad_request_witness :
  handle_client (py := ascii_str) w_without_host 100 300
  = (Returned, [EvWrite Client status_400; EvClose Client]).
Proof.
  refine (proj1 (proj2 (proj2 (proj2
    (missing_host_bad_request ascii_str w_without_host 100 300
       (lit "GET") (lit "/index.html") (block get_without_host)
       _ _ _)))) _).
  - vm_compute. reflexivity.
  - vm_compute. reflexivity.
  - vm_compute. reflexivity.
  - reflexivity.
Defined.

(** C8 in the wording of the specification does not hold.  The same
    request, the handler cancelled while it flushes the 400 line: the
    connection is not closed.  Nor is it when the flush fails because the
    client is gone. *)
Lemma missing_host_cancelled :
  handle_client (py := ascii_str) w_without_host_cancelled 100 300
  = (Raised CancelledError, [EvWrite Client status_400]) /\
  existsb is_client_close
    (snd (handle_client (py := ascii_str) w_without_host_cancelled 100 300))
  = false /\
  handle_client (py := ascii_str) w_without_host_reset 100 300
  = (Raised ConnectionResetError, [EvWrite Client status_400]).
Proof. repeat split; vm_compute; reflexivity. Qed.

(** C10.  A blank Host header.  For a request that is not CONNECT, when the
    first line that starts with [host:] once in lower case has nothing but
    white space after its colon, the proxy treats the header as absent: it
    writes exactly one line to the client, [HTTP/1.1 400 Bad Request],
    attempts no outbound connection, and closes the connection once that
    line is flushed (cancelled while flushing, it does not close). *)
Theorem blank_host_bad_request :
  forall (py : PyStr) (w : world) (up_kbps down_kbps : Q)
         (method target : str) (headers : bytes) (host_line value : str),
    read_request w = Request method target headers ->
    str_eqb method (lit "CONNECT") = false ->
    first_host_line headers = Some host_line ->
    after_colon host_line = Some value ->
    strip value = [] ->
    let r := handle_client w up_kbps down_kbps in
    client_writes (snd r) = [status_400] /\
    existsb is_connect (snd r) = false /\
    existsb is_relay (snd r) = false /\
    (client_drain w 0 = Ok tt ->
     r = (Returned, [EvWrite Client status_400; EvClose Client])) /\
    (client_drain w 0 = Raise CancelledError ->
     r = (Raised CancelledError, [EvWrite Client status_400])).
Proof.
  intros py w up down method target headers host_line value
    Hreq Hm Hfirst Hcolon Hblank r.
  apply bad_request_shape.
  unfold r, handle_client. rewrite Hreq, Hm.
  apply forward_bad_request with (host_header := Some []); [| reflexivity].
  unfold first_host_line in Hfirst.
  now rewrite scan_host_find, Hfirst, Hcolon, Hblank.
Qed.

(** [Host:] followed by three spaces: 400 and closed. *)
Lemma blank_host_bad_request_witness :
  handle_client (py := ascii_str) w_blank_host 100 300
  = (Returned, [EvWrite Client status_400; EvClose Client]).
Proof.
  refine (proj1 (proj2 (proj2 (proj2
    (blank_host_bad_request ascii_str w_blank_host 100 300
       (lit "GET") (lit "/index.html") (block get_blank_host)
       (lit "Host:   ") (lit "   ") _ _ _ _ _)))) _).
  - vm_compute. reflexivity.
  - vm_compute. reflexivity.
  - vm_compute. reflexivity.
  - vm_compute. reflexivity.
  - vm_compute. reflexivity.
  - reflexivity.
Defined.

(** C10 in the wording of the specification does not hold.  A request with
    [Host: example.com] and then a blank [Host:] line has a Host line with
    an empty value, and is forwarded to example.com: only the first Host
    line counts.  And the handler cancelled while it flushes the 400 line
    does not close. *)
Lemma second_host_line_ignored :
  read_request (py := ascii_str) w_two_hosts
  = Request (lit "GET") (lit "/index.html") (block get_two_hosts) /\
  In (lit "Host: ")
     (split_crlf (decode (PyStr := ascii_str) (block get_two_hosts))) /\
  after_colon (lit "Host: ") = Some (lit " ") /\
  strip (PyStr := ascii_str) (lit " ") = [] /\
  handle_client (py := ascii_str) w_two_hosts 100 300
  = (Relaying,
     [EvConnect (lit "example.com") 80;
      EvWrite Remote (block get_two_hosts);
      EvRelay Up 100; EvRelay Down 300]) /\
  handle_client (py := ascii_str) w_blank_host_cancelled 100 300
  = (Raised CancelledError, [EvWrite Client status_400]).
Proof.
  split; [vm_compute; reflexivity |].
  split; [vm_compute; tauto |].
  repeat split; vm_compute; reflexivity.
Qed.

(** C1.  CONNECT to a target that cannot be reached.  For every CONNECT
    request the first thing written is [HTTP/1.1 200 Connection established],
    and the connection to the target is attempted after that line is flushed.
    When the attempt fails, the proxy writes one more line to the client,
    [HTTP/1.1 502 Bad Gateway], exactly once, starts no relay, closes the
    client connection and returns; cancelled while flushing the 502 line, it
    lets the cancellation through and does not close. *)
Theorem connect_acknowledged_first :
  forall (py : PyStr) (w : world) (up_kbps down_kbps : Q)
         (method target : str) (headers : bytes),
    read_request w = Request method target headers ->
    str_eqb method (lit "CONNECT") = true ->
    let host := fst (connect_target target) in
    let port := snd (connect_target target) in
    let r := handle_client w up_kbps down_kbps in
    (exists rest,
       snd r = EvWrite Client status_200 :: rest /\
       (client_drain w 0 = Ok tt ->
        exists rest', rest = EvConnect host port :: rest')) /\
    (forall e,
       client_drain w 0 = Ok tt ->
       open_connection w host port = Raise e -> is_Exception e = true ->
       existsb is_relay (snd r) = false /\
       client_writes (snd r) = [status_200; status_502] /\
       (client_drain w 1 <> Raise CancelledError ->
        r = (Returned,
             [EvWrite Client status_200; EvConnect host port;
              EvWrite Client status_502; EvClose Client])) /\
       (client_drain w 1 = Raise CancelledError ->
        r = (Raised CancelledError,
             [EvWrite Client status_200; EvConnect host port;
              EvWrite Client status_502]))).
Proof.
  intros py w up down method target headers Hreq Hm host port r.
  unfold r, handle_client. rewrite Hreq, Hm.
  rewrite (surjective_pairing (connect_target target)).
  fold host port. unfold handle_tunnel, after.
  split.
  - destruct (client_drain w 0) as [[] | e0]; simpl.
    + eexists. split; [reflexivity |]. intros _.
      destruct (open_connection w host port) as [[] | e1]; simpl; eauto.
      destruct (is_Exception e1); simpl; eauto.
      destruct (client_drain w 1) as [[] | []]; simpl; eauto.
    + eexists. split; [reflexivity |]. discriminate.
  - intros e Hd Hconn He. rewrite Hd, Hconn, He.
    destruct (client_drain w 1) as [[] | []]; simpl;
      repeat split; congruence.
Qed.

(** [CONNECT example.com:443], refused: 200, the attempt, 502, closed. *)
Lemma connect_acknowledged_first_witness :
  handle_client (py := ascii_str) w_connect_unreachable 100 300
  = (Returned,
     [EvWrite Client status_200; EvConnect (lit "example.com") 443;
      EvWrite Client status_502; EvClose Client]).
Proof.
  destruct (connect_acknowledged_first ascii_str w_connect_unreachable 100 300
    (lit "CONNECT") (lit "example.com:443") (block connect_request))
    as [_ H].
  - vm_compute. reflexivity.
  - vm_compute. reflexivity.
  - destruct (H OtherError) as (_ & _ & Hclose & _).
    + reflexivity.
    + vm_compute. reflexivity.
    + reflexivity.
    + apply Hclose. vm_compute. discriminate.
Defined.

(** C1 in the wording of the specification does not hold.  The 200 line is
    written before the attempt that fails, so the client is sent two status
    lines and not the 502 line alone; and the handler cancelled while it
    flushes the 502 line does not close the connection. *)
Lemma connect_acknowledged_before_attempt :
  handle_client (py := ascii_str) w_connect_unreachable 100 300
  = (Returned,
     [EvWrite Client status_200; EvConnect (lit "example.com") 443;
      EvWrite Client status_502; EvClose Client]) /\
  open_connection w_connect_unreachable (lit "example.com") 443
  = Raise OtherError /\
  client_writes
    (snd (handle_client (py := ascii_str) w_connect_unreachable 100 300))
  <> [status_502] /\
  handle_client (py := ascii_str) w_connect_cancelled 100 300
  = (Raised CancelledError,
     [EvWrite Client status_200; EvConnect (lit "example.com") 443;
      EvWrite Client status_502]).
Proof.
  split; [vm_compute; reflexivity |].
  split; [reflexivity |].
  split; [vm_compute; discriminate |].
  vm_compute; reflexivity.
Qed.

End ProxyFacts.

(** * The relay: sizes, bursts and progress *)

Section FlowFacts.
Import Aio Relay Flow.

(** ** The size of a write *)

Lemma flush_once_sized (w : world) (bps : Q) (data : bytes) (idx : nat)
  (c : config) :
  ctl c = AtFlush data idx -> (idx < length data)%nat ->
  short_read c -> Forall sized_write (trace c) ->
  short_read (flush_once w bps data idx c) /\
  Forall sized_write (trace (flush_once w bps data idx c)).
Proof.
  intros Hc Hi Hs Ht. unfold short_read in Hs. rewrite Hc in Hs.
  unfold flush_once.
  set (t2 := refill _ _ _ _).
  destruct (Z.leb_spec (allowance t2 (length data) idx) 0) as [Ha | Ha].
  - destruct (sleep w (sleep_calls c)) as [[] | e]; unfold short_read;
      cbn [ctl trace]; (split; [try exact Hs; exact I |]);
      apply Forall_app; (split; [exact Ht |]);
      (constructor; [exact I | constructor]).
  - destruct (allowance_granted _ _ _ Ha) as (_ & _ & _ & Hr).
    set (a := allowance t2 (length data) idx) in *.
    assert (sized_write (EvWrite (firstn (Z.to_nat a) (skipn idx data))))
      as Hw.
    { pose proof (chunk_length data idx a ltac:(lia)) as Hl.
      unfold sized_write. lia. }
    destruct (drain w (drain_calls c)) as [[] | []]; unfold short_read;
      cbn [ctl trace]; (split; [try exact Hs; exact I |]);
      apply Forall_app; (split; [exact Ht |]);
      (constructor; [exact Hw | constructor]).
Qed.

Lemma step_sized (w : world) (bps : Q) (c : config) :
  short_read c /\ Forall sized_write (trace c) ->
  short_read (step w bps c) /\ Forall sized_write (trace (step w bps c)).
Proof.
  intros [Hs Ht]. unfold step.
  destruct (ctl c) as [| data idx | o] eqn:Hc.
  - unfold reader_read.
    destruct (read w (read_calls c)) as [data | e]; unfold short_read;
      cbn [ctl trace].
    + split.
      * destruct (firstn read_size data) as [| b l] eqn:E; [exact I |].
        rewrite <- E, length_firstn. apply Nat.le_min_l.
      * apply Forall_app. split; [exact Ht |].
        constructor; [exact I | constructor].
    + split; [exact I | exact Ht].
  - destruct (Nat.ltb_spec idx (length data)) as [Hi | Hi].
    + now apply flush_once_sized.
    + split; [exact I | exact Ht].
  - split; [| exact Ht]. unfold short_read. now rewrite Hc.
Qed.

Lemma run_sized (w : world) (rate_kbps : Q) (n : nat) :
  short_read (token_bucket_copy w rate_kbps n) /\
  Forall sized_write (trace (token_bucket_copy w rate_kbps n)).
Proof.
  induction n as [| n IH].
  - unfold token_bucket_copy, start. simpl.
    destruct (Qle_bool rate_kbps 0).
    + destruct (drain w 0); unfold short_read; cbn [ctl trace];
        (split; [exact I |]); repeat (constructor; try exact I).
    + unfold short_read; cbn [ctl trace]. split; [exact I | constructor].
  - rewrite run_S. now apply step_sized.
Qed.

(** X1.  Every write of the relay hands over at least one byte and at most
    8192: the bytes of one read are the limit, the 16 KiB of [max_chunk]
    never are. *)
Theorem writes_between_1_and_8192 :
  forall (w : world) (rate_kbps : Q) (n : nat) (chunk : bytes),
    In (EvWrite chunk) (trace (token_bucket_copy w rate_kbps n)) ->
    (1 <= Z.of_nat (length chunk) <= 8192)%Z /\
    (Z.of_nat (length chunk) < max_chunk)%Z.
Proof.
  intros w rate_kbps n chunk Hin.
  destruct (run_sized w rate_kbps n) as [_ H].
  rewrite Forall_forall in H. specialize (H _ Hin). unfold sized_write in H.
  assert (Z.of_nat read_size = 8192%Z) as E by (vm_compute; reflexivity).
  unfold max_chunk. lia.
Qed.

Lemma writes_between_1_and_8192_witness :
  In (EvWrite (payload 1500)) (trace (token_bucket_copy w_steady 8 2)) /\
  (1 <= Z.of_nat (length (payload 1500)) <= 8192)%Z.
Proof.
  assert (In (EvWrite (payload 1500)) (trace (token_bucket_copy w_steady 8 2)))
    as Hin by (vm_compute; right; left; reflexivity).
  split; [exact Hin |].
  exact (proj1 (writes_between_1_and_8192 w_steady 8 2 (payload 1500) Hin)).
Defined.

(** ** The burst over a stretch of an execution *)

Section Window.
Variable w : world.
Variable bps : Q.
Hypothesis bps_gt_0 : 0 < bps.
Hypothesis clock : monotone w.

(** One iteration spends no more than it had and has earned meanwhile. *)
Lemma step_spends (c : config) :
  metered w bps c ->
  last c <= last (step w bps c) /\
  sent (step w bps c) + owed (step w bps c)
  <= sent c + owed c + (last (step w bps c) - last c) * bps.
Proof.
  intros (H0 & Hcap & (k & Hk & Hl) & _). unfold step.
  destruct (ctl c) as [| data idx | o] eqn:Hc.
  - destruct (reader_read w (read_calls c) read_size) as [data | e];
      unfold sent, owed; simpl; rewrite ?written_app, ?app_nil_r, Hc;
      try destruct data; split; lra.
  - destruct (Nat.ltb_spec idx (length data)) as [Hi | Hi].
    + unfold flush_once. rewrite Hk.
      set (now := monotonic w (S k)).
      assert (last c <= now) as Hmono by (rewrite Hl; apply clock).
      set (t2 := refill bps (tokens c) (last c) now).
      pose proof (refill_le_credit bps (tokens c) (last c) now bps_gt_0) as H3.
      pose proof (refill_nonneg bps (tokens c) (last c) now bps_gt_0 H0 Hmono)
        as H4.
      fold t2 in H3, H4.
      destruct (Z.leb_spec (allowance t2 (length data) idx) 0) as [Ha | Ha].
      * destruct (sleep w (sleep_calls c)) as [[] | e];
          unfold sent, owed; simpl; rewrite written_app, app_nil_r, Hc;
          split; lra.
      * destruct (allowance_granted _ _ _ Ha) as (_ & Ht & _ & Hr).
        set (a := allowance t2 (length data) idx) in *.
        assert (0 < inject_Z a) as Hpos.
        { change 0 with (inject_Z 0). rewrite <- Zlt_Qlt. exact Ha. }
        assert (inject_Z
                  (Z.of_nat
                     (length
                        (written (trace c) ++
                         firstn (Z.to_nat a) (skipn idx data))))
                == sent c + inject_Z a) as Hs.
        { unfold sent. rewrite length_app, Nat2Z.inj_add, chunk_length by lia.
          rewrite inject_Z_plus. reflexivity. }
        destruct (drain w (drain_calls c)) as [[] | []];
          unfold sent at 1, owed; simpl; rewrite written_app; simpl;
          rewrite app_nil_r, Hs, Hc; split; lra.
    + unfold sent, owed; simpl. rewrite Hc. split; lra.
  - unfold sent, owed. rewrite Hc. split; lra.
Qed.

Lemma iter_spends (c : config) (m : nat) :
  metered w bps c ->
  metered w bps (Nat.iter m (step w bps) c) /\
  last c <= last (Nat.iter m (step w bps) c) /\
  sent (Nat.iter m (step w bps) c) + owed (Nat.iter m (step w bps) c)
  <= sent c + owed c + (last (Nat.iter m (step w bps) c) - last c) * bps.
Proof.
  intros Hc. induction m as [| m (Hm & Hl & Hb)]; simpl.
  - split; [exact Hc |]. split; lra.
  - destruct (step_spends _ Hm) as [Hl' Hb'].
    split; [now apply step_metered |]. split; lra.
Qed.

End Window.

Lemma run_add (w : world) (rate_kbps : Q) (n m : nat) :
  token_bucket_copy w rate_kbps (n + m)
  = Nat.iter m (step w (bytes_per_second rate_kbps))
      (token_bucket_copy w rate_kbps n).
Proof.
  unfold token_bucket_copy. rewrite Nat.add_comm. apply Nat.iter_add.
Qed.

Lemma owed_le_capacity (w : world) (bps : Q) (c : config) :
  0 < bps -> metered w bps c -> 0 <= owed c /\ owed c <= capacity bps.
Proof.
  intros Hb (H0 & Hcap & _). unfold owed, capacity in *.
  destruct (ctl c); split; lra.
Qed.

(** X2.  Over any stretch of an execution, from one observation point to a
    later one, the relay writes at most the capacity of the bucket (two
    seconds of allowance) plus the rate times the time between the two
    readings of the clock. *)
Theorem window_within_burst :
  forall (w : world) (rate_kbps : Q) (n m : nat),
    0 < rate_kbps -> monotone w ->
    let bps := bytes_per_second rate_kbps in
    let c1 := token_bucket_copy w rate_kbps n in
    let c2 := token_bucket_copy w rate_kbps (n + m) in
    last c1 <= last c2 /\
    sent c2 - sent c1 <= capacity bps + (last c2 - last c1) * bps.
Proof.
  intros w rate_kbps n m Hr Hm bps c1 c2.
  pose proof (bps_pos _ Hr) as Hb. fold bps in Hb.
  pose proof (run_metered w rate_kbps n Hr Hm) as H1. fold bps c1 in H1.
  destruct (iter_spends w bps Hb Hm c1 m H1) as (H2 & Hl & Hs).
  unfold c2. rewrite run_add. fold bps c1.
  destruct (owed_le_capacity w bps c1 Hb H1) as [_ Ho1].
  destruct (owed_le_capacity w bps _ Hb H2) as [Ho2 _].
  split; [exact Hl | lra].
Qed.

Lemma window_within_burst_witness :
  0 < 8 /\ monotone w_steady /\
  sent (token_bucket_copy w_steady 8 (2 + 3))
  - sent (token_bucket_copy w_steady 8 2)
  <= capacity (bytes_per_second 8)
     + (last (token_bucket_copy w_steady 8 (2 + 3))
        - last (token_bucket_copy w_steady 8 2)) * bytes_per_second 8.
Proof.
  assert (monotone w_steady) as Hm.
  { intros k. unfold Qle. simpl. lia. }
  assert (0 < 8) as Hr by reflexivity.
  split; [exact Hr |]. split; [exact Hm |].
  exact (proj2 (window_within_burst w_steady 8 2 3 Hr Hm)).
Defined.

(** ** Progress *)

Lemma advancing_monotone (d : Q) (w : world) :
  0 < d -> advancing d w -> monotone w.
Proof. intros Hd H k. specialize (H k). lra. Qed.

(** Some number of waits is worth one byte. *)
Lemma enough_waits (x : Q) :
  0 < x -> exists J, (0 < J)%nat /\ 1 <= inject_Z (Z.of_nat J) * x.
Proof.
  intros Hx.
  pose proof (Qle_ceiling (1 / x)) as Hc.
  assert (0 < 1 / x) as Hinv.
  { apply Qlt_shift_div_l; lra. }
  assert (0 < Qceiling (1 / x))%Z as Hpos.
  { rewrite Zlt_Qlt. change (inject_Z 0) with 0. lra. }
  exists (Z.to_nat (Qceiling (1 / x))). split; [lia |].
  rewrite Z2Nat.id by lia.
  assert (1 == (1 / x) * x) as E by (field; lra).
  rewrite E at 1. apply Qmult_le_compat_r; lra.
Qed.

Section Progress.
Variable w : world.
Variables bps d : Q.
Hypothesis bps_gt_0 : 0 < bps.
Hypothesis d_gt_0 : 0 < d.
Hypothesis clock : advancing d w.
Hypothesis sink : obliging w.
Hypothesis one_byte : 1 <= capacity bps.

Let clock_mono : monotone w := advancing_monotone d w d_gt_0 clock.

(** One iteration of the inner loop either writes or waits; a wait leaves
    less than one token in the bucket, and at least [d * bps] more than
    there was. *)
Lemma flush_writes_or_waits (data : bytes) (idx : nat) (c : config) :
  metered w bps c -> ctl c = AtFlush data idx -> (idx < length data)%nat ->
  granted w bps data idx c (step w bps c) \/
  (ctl (step w bps c) = AtFlush data idx /\
   written (trace (step w bps c)) = written (trace c) /\
   read_calls (step w bps c) = read_calls c /\
   tokens (step w bps c) < 1 /\
   tokens c + d * bps <= tokens (step w bps c)).
Proof.
  intros Hm Hc Hi.
  pose proof (step_metered w bps bps_gt_0 clock_mono c Hm) as Hm'.
  destruct Hm as (H0 & Hcap & (k & Hk & Hl) & _).
  revert Hm'. unfold step. rewrite Hc.
  apply Nat.ltb_lt in Hi. rewrite Hi. apply Nat.ltb_lt in Hi.
  unfold flush_once. rewrite Hk.
  set (now := monotonic w (S k)).
  assert (last c + d <= now) as Hadv by (rewrite Hl; apply clock).
  set (t2 := refill bps (tokens c) (last c) now).
  assert (0 <= t2) as H4 by (apply refill_nonneg; lra).
  destruct (sink (sleep_calls c)) as [_ Hsl].
  destruct (sink (drain_calls c)) as [Hdr _].
  rewrite Hsl, Hdr.
  destruct (allowance_floor t2 (length data) idx H4 Hi) as [Hfl Hnn].
  destruct (Z.leb_spec (allowance t2 (length data) idx) 0) as [Ha | Ha].
  - intros _. right. cbn [ctl trace tokens read_calls].
    rewrite written_app, app_nil_r.
    assert (t2 < 1) as Hlt.
    { destruct (Qlt_le_dec t2 1) as [H | H]; [exact H | exfalso].
      assert (1 <= py_min3 t2 (inject_Z max_chunk)
                     (inject_Z (Z.of_nat (length data) - Z.of_nat idx)))
        as Hmin.
      { unfold py_min3. apply Q.min_glb; [apply Q.min_glb |].
        - exact H.
        - unfold max_chunk. change 1 with (inject_Z 1). rewrite <- Zle_Qle.
          lia.
        - change 1 with (inject_Z 1). rewrite <- Zle_Qle. lia. }
      apply Qfloor_resp_le in Hmin. change (Qfloor 1) with 1%Z in Hmin.
      lia. }
    repeat split; try reflexivity; [exact Hlt |].
    unfold t2, refill, Qgtb in *.
    assert (0 <= (now - last c - d) * bps)
      by (apply Qmult_le_0_compat; lra).
    destruct (Qle_bool _ _); simpl in *; [lra |].
    unfold capacity in one_byte. lra.
  - intros Hm'. left.
    destruct (allowance_granted _ _ _ Ha) as (_ & _ & _ & Hr).
    exists (Z.to_nat (allowance t2 (length data) idx)).
    cbn [ctl trace read_calls]. rewrite written_app. simpl.
    rewrite app_nil_r.
    split; [lia |]. split; [lia |]. split; [reflexivity |].
    split; [reflexivity |]. split; [reflexivity | exact Hm'].
Qed.

(** After [j] iterations a write has come, or the bucket has gained [j]
    times [d * bps] and still holds less than one token. *)
Lemma waits_add_up (data : bytes) (idx : nat) (c : config) (j : nat) :
  metered w bps c -> ctl c = AtFlush data idx -> (idx < length data)%nat ->
  (exists i, granted w bps data idx c (Nat.iter (S i) (step w bps) c)) \/
  (metered w bps (Nat.iter j (step w bps) c) /\
   ctl (Nat.iter j (step w bps) c) = AtFlush data idx /\
   written (trace (Nat.iter j (step w bps) c)) = written (trace c) /\
   read_calls (Nat.iter j (step w bps) c) = read_calls c /\
   tokens c + inject_Z (Z.of_nat j) * (d * bps)
   <= tokens (Nat.iter j (step w bps) c) /\
   ((0 < j)%nat -> tokens (Nat.iter j (step w bps) c) < 1)).
Proof.
  intros Hm Hc Hi. induction j as [| j [IH | IH]].
  - right. simpl Nat.iter.
    split; [exact Hm |]. split; [exact Hc |]. split; [reflexivity |].
    split; [reflexivity |]. split; [| lia].
    change (inject_Z (Z.of_nat 0)) with 0. lra.
  - now left.
  - destruct IH as (Hmj & Hcj & Hwj & Hrj & Htj & _).
    destruct (flush_writes_or_waits data idx _ Hmj Hcj Hi)
      as [(g & Hg & Hle & Hctl & Hwr & Hrd & Hmet)
         | (Hctl & Hwr & Hrd & Hlt & Hge)].
    + left. exists j. exists g. simpl Nat.iter.
      rewrite Hwr, Hwj, Hrd, Hrj.
      split; [exact Hg |]. split; [exact Hle |]. split; [exact Hctl |].
      split; [reflexivity |]. split; [reflexivity | exact Hmet].
    + right. simpl Nat.iter. rewrite Hwr, Hrd.
      split; [apply step_metered; assumption |].
      split; [exact Hctl |]. split; [exact Hwj |]. split; [exact Hrj |].
      split; [| intros _; exact Hlt].
      rewrite Nat2Z.inj_succ, <- Z.add_1_r, inject_Z_plus.
      change (inject_Z 1) with 1. lra.
Qed.

Lemma write_comes (data : bytes) (idx : nat) (c : config) :
  metered w bps c -> ctl c = AtFlush data idx -> (idx < length data)%nat ->
  exists i, granted w bps data idx c (Nat.iter (S i) (step w bps) c).
Proof.
  intros Hm Hc Hi.
  assert (0 < d * bps) as Hx by (apply Qmult_lt_0_compat; assumption).
  destruct (enough_waits _ Hx) as (J & HJ & Hone).
  destruct (waits_add_up data idx c J Hm Hc Hi)
    as [H | (_ & _ & _ & _ & Hge & Hlt)]; [exact H | exfalso].
  specialize (Hlt HJ). destruct Hm as (H0 & _). lra.
Qed.

(** A read that is being flushed is flushed to its end. *)
Lemma flush_completes (r : nat) :
  forall (data : bytes) (idx : nat) (c : config),
    (length data - idx <= r)%nat ->
    metered w bps c -> ctl c = AtFlush data idx ->
    (idx <= length data)%nat ->
    exists m,
      ctl (Nat.iter m (step w bps) c) = AtRead /\
      written (trace (Nat.iter m (step w bps) c))
      = written (trace c) ++ skipn idx data /\
      read_calls (Nat.iter m (step w bps) c) = read_calls c /\
      metered w bps (Nat.iter m (step w bps) c).
Proof.
  induction r as [| r IH]; intros data idx c Hr Hm Hc Hle.
  - exists 1%nat. simpl Nat.iter.
    pose proof (step_metered w bps bps_gt_0 clock_mono c Hm) as Hm'.
    revert Hm'. unfold step. rewrite Hc.
    destruct (Nat.ltb_spec idx (length data)) as [Hi | Hi]; [lia |].
    intros Hm'. cbn [ctl trace read_calls].
    rewrite skipn_all2, app_nil_r by lia.
    split; [reflexivity |]. split; [reflexivity |].
    split; [reflexivity | exact Hm'].
  - destruct (Nat.eq_dec idx (length data)) as [E | E].
    + apply IH; try assumption. lia.
    + destruct (write_comes data idx c Hm Hc ltac:(lia))
        as (i & g & Hg & Hgle & Hctl & Hwr & Hrd & Hmet).
      destruct (IH data (idx + g)%nat _ ltac:(lia) Hmet Hctl Hgle)
        as (m & Hm1 & Hm2 & Hm3 & Hm4).
      exists (m + S i)%nat. rewrite Nat.iter_add.
      rewrite Hm2, Hm3, Hwr, Hrd, <- app_assoc.
      split; [exact Hm1 |]. split; [| split; [reflexivity | exact Hm4]].
      f_equal.
      rewrite (Nat.add_comm idx g), <- skipn_skipn. apply firstn_skipn.
Qed.

(** From the top of the outer loop, a source that ends makes the relay
    end. *)
Lemma reads_run_out (r : nat) :
  forall (c : config),
    metered w bps c -> ctl c = AtRead -> ending (read_calls c + r) w ->
    exists m, ctl (Nat.iter m (step w bps) c) = Done (Returned EndOfStream).
Proof.
  induction r as [| r IH]; intros c Hm Hc [Hend Hok].
  - exists 1%nat. simpl Nat.iter. unfold step, reader_read.
    rewrite Hc. rewrite Nat.add_0_r in Hend. rewrite Hend. reflexivity.
  - destruct (Hok (read_calls c) ltac:(lia)) as [data Hd].
    pose proof (step_metered w bps bps_gt_0 clock_mono c Hm) as Hm'.
    destruct (firstn read_size data) as [| b l] eqn:E.
    + exists 1%nat. simpl Nat.iter. unfold step, reader_read.
      rewrite Hc, Hd, E. reflexivity.
    + assert (ctl (step w bps c) = AtFlush (b :: l) 0 /\
              read_calls (step w bps c) = S (read_calls c)) as [Hc1 Hr1].
      { unfold step, reader_read. rewrite Hc, Hd, E. split; reflexivity. }
      destruct (flush_completes (length (b :: l)) (b :: l) 0 _
                  ltac:(lia) Hm' Hc1 ltac:(lia))
        as (m1 & Hm1 & _ & Hm3 & Hm4).
      destruct (IH _ Hm4 Hm1) as [m2 Hm2].
      { rewrite Hm3, Hr1. replace (S (read_calls c) + r)%nat
          with (read_calls c + S r)%nat by lia. split; assumption. }
      exists (m2 + (m1 + 1))%nat.
      rewrite !Nat.iter_add. exact Hm2.
Qed.

End Progress.

Lemma run_ends (w : world) (rate_kbps d : Q) (reads : nat) :
  0 < rate_kbps -> 1 <= capacity (bytes_per_second rate_kbps) ->
  0 < d -> advancing d w -> obliging w -> ending reads w ->
  exists n,
    ctl (token_bucket_copy w rate_kbps n) = Done (Returned EndOfStream).
Proof.
  intros Hr Hcap Hd Hadv Hsink Hend.
  pose proof (bps_pos _ Hr) as Hb.
  pose proof (advancing_monotone d w Hd Hadv) as Hmono.
  pose proof (run_metered w rate_kbps 0 Hr Hmono) as Hm.
  destruct (reads_run_out w (bytes_per_second rate_kbps) d Hb Hd Hadv Hsink
              Hcap reads (token_bucket_copy w rate_kbps 0) Hm)
    as [m Hdone].
  - unfold token_bucket_copy. simpl. now rewrite start_running.
  - unfold token_bucket_copy. simpl. rewrite start_running by exact Hr.
    exact Hend.
  - exists (0 + m)%nat. rewrite run_add. exact Hdone.
Qed.

(** X3.  The relay comes to its end.  With a positive rate whose bucket can
    hold one byte, a clock that gains at least [d > 0] seconds from one
    reading to the next, a sink that takes every write, sleeps that end, and
    a source whose reads succeed until one is empty, [token_bucket_copy]
    returns after finitely many iterations, on the empty read, with every
    byte it read written. *)
Theorem relay_comes_to_its_end :
  forall (w : world) (rate_kbps d : Q) (reads : nat),
    0 < rate_kbps -> 1 <= capacity (bytes_per_second rate_kbps) ->
    0 < d -> advancing d w -> obliging w -> ending reads w ->
    exists n,
      ctl (token_bucket_copy w rate_kbps n) = Done (Returned EndOfStream) /\
      written (trace (token_bucket_copy w rate_kbps n))
      = received (trace (token_bucket_copy w rate_kbps n)).
Proof.
  intros w rate_kbps d reads Hr Hcap Hd Hadv Hsink Hend.
  destruct (run_ends w rate_kbps d reads Hr Hcap Hd Hadv Hsink Hend)
    as [n Hn].
  exists n. split; [exact Hn |].
  pose proof (run_in_order w rate_kbps n) as Ho.
  unfold in_order in Ho. rewrite Hn in Ho. now symmetry.
Qed.

Lemma relay_comes_to_its_end_witness :
  0 < 8 /\ 1 <= capacity (bytes_per_second 8) /\ 0 < 1 # 2 /\
  advancing (1 # 2) w_steady /\ obliging w_steady /\ ending 1 w_steady /\
  exists n,
    ctl (token_bucket_copy w_steady 8 n) = Done (Returned EndOfStream) /\
    written (trace (token_bucket_copy w_steady 8 n))
    = received (trace (token_bucket_copy w_steady 8 n)).
Proof.
  assert (0 < 8) as Hr by reflexivity.
  assert (1 <= capacity (bytes_per_second 8)) as Hc by (vm_compute; discriminate).
  assert (0 < 1 # 2) as Hd by reflexivity.
  assert (advancing (1 # 2) w_steady) as Ha.
  { intros k. unfold Qle. simpl. lia. }
  assert (obliging w_steady) as Ho.
  { intros k. split; reflexivity. }
  assert (ending 1 w_steady) as He.
  { split; [reflexivity |]. intros k Hk. exists (payload 3000).
    destruct k; [reflexivity | lia]. }
  split; [exact Hr |]. split; [exact Hc |]. split; [exact Hd |].
  split; [exact Ha |]. split; [exact Ho |]. split; [exact He |].
  exact (relay_comes_to_its_end w_steady 8 (1 # 2) 1 Hr Hc Hd Ha Ho He).
Defined.

(** With a positive rate the relay never closes its writer. *)
Lemma step_keeps_open (w : world) (bps : Q) (c : config) :
  existsb is_close (trace c) = false ->
  existsb is_close (trace (step w bps c)) = false.
Proof.
  intros H. unfold step.
  destruct (ctl c) as [| data idx | o]; [| | exact H].
  - destruct (reader_read w _ _) as [data | e]; cbn [trace]; [| exact H].
    rewrite existsb_app, H. reflexivity.
  - destruct (idx <? length data)%nat; [| exact H].
    unfold flush_once.
    destruct (_ <=? 0)%Z.
    + destruct (sleep w _) as [[] | e]; cbn [trace];
        rewrite existsb_app, H; reflexivity.
    + destruct (drain w _) as [[] | []]; cbn [trace];
        rewrite existsb_app, H; reflexivity.
Qed.

(** X4.  The relay closes its writer in the refusal branch only: started
    with a positive rate it never calls [writer.close()], however it ends;
    closing is left to the handler that created it. *)
Theorem running_relay_never_closes :
  forall (w : world) (rate_kbps : Q) (n : nat),
    0 < rate_kbps ->
    existsb is_close (trace (token_bucket_copy w rate_kbps n)) = false.
Proof.
  intros w rate_kbps n Hr. induction n as [| n IH].
  - unfold token_bucket_copy. simpl. now rewrite start_running.
  - rewrite run_S. now apply step_keeps_open.
Qed.

Lemma running_relay_never_closes_witness :
  0 < 8 /\
  ctl (token_bucket_copy w_steady 8 7) = Done (Returned EndOfStream) /\
  existsb is_close (trace (token_bucket_copy w_steady 8 7)) = false.
Proof.
  assert (0 < 8) as Hr by reflexivity.
  split; [exact Hr |]. split; [vm_compute; reflexivity |].
  exact (running_relay_never_closes w_steady 8 7 Hr).
Defined.

End FlowFacts.

(** * The handlers: targets, header block and discipline *)

Section TrafficFacts.
Import Aio Text Proxy Traffic.

(** ** Splitting at the first colon *)

Lemma colon_split (s rest : str) :
  after_colon s = Some rest -> s = before_colon s ++ colon :: rest.
Proof.
  revert rest. induction s as [| c s IH]; intros rest; cbn [after_colon before_colon].
  - discriminate.
  - destruct (N.eqb_spec c colon) as [E | E].
    + intros H. injection H as <-. now rewrite E.
    + intros H. cbn [app]. f_equal. now apply IH.
Qed.

Lemma before_colon_no_colon (s : str) : has_colon (before_colon s) = false.
Proof.
  unfold has_colon. induction s as [| c s IH]; cbn [before_colon];
    [reflexivity |].
  destruct (N.eqb_spec c colon) as [E | E]; [reflexivity |].
  cbn [existsb]. rewrite IH, orb_false_r. apply N.eqb_neq. congruence.
Qed.

Lemma has_colon_after (s : str) :
  has_colon s = true <-> exists rest, after_colon s = Some rest.
Proof.
  unfold has_colon. induction s as [| c s IH]; cbn [existsb after_colon].
  - split; [discriminate | intros [r H]; discriminate].
  - rewrite N.eqb_sym. destruct (c =? colon)%N; cbn [orb].
    + split; eauto.
    + exact IH.
Qed.

Lemma no_colon_before (s : str) : has_colon s = false -> before_colon s = s.
Proof.
  unfold has_colon. induction s as [| c s IH]; cbn [existsb before_colon];
    [reflexivity |].
  rewrite N.eqb_sym. destruct (c =? colon)%N; cbn [orb]; [discriminate |].
  intros H. f_equal. now apply IH.
Qed.

Section Targets.
Context {py : PyStr}.

(** X5.  The target of a tunnel and of a plain request.  The host is what
    stands before the first colon and holds no colon itself; the port is
    what [int] makes of the rest, 443 for CONNECT and 80 for a plain request
    when there is no colon or when the rest is no number; host, colon and
    rest give back the text that was split. *)
Theorem target_host_and_port :
  forall (target : str),
    has_colon (fst (connect_target target)) = false /\
    has_colon (fst (forward_target target)) = false /\
    (has_colon target = false ->
     connect_target target = (target, 443%Z) /\
     forward_target target = (target, 80%Z)) /\
    (forall rest,
       after_colon target = Some rest ->
       target = fst (connect_target target) ++ colon :: rest /\
       fst (forward_target target) = fst (connect_target target) /\
       (forall port, int_of rest = Some port ->
                     snd (connect_target target) = port /\
                     snd (forward_target target) = port) /\
       (int_of rest = None ->
        snd (connect_target target) = 443%Z /\
        snd (forward_target target) = 80%Z)).
Proof.
  intros target. unfold connect_target, forward_target.
  split.
  { destruct (has_colon target) eqn:E; cbn [fst];
      [apply before_colon_no_colon | exact E]. }
  split; [apply before_colon_no_colon |].
  split.
  - intros H. rewrite H, (no_colon_before _ H). split; reflexivity.
  - intros rest Hr.
    assert (has_colon target = true) as Hc by (apply has_colon_after; eauto).
    rewrite Hc, Hr. cbn [fst snd].
    split; [now apply colon_split |]. split; [reflexivity |].
    split.
    + intros port Hp. rewrite Hp. split; reflexivity.
    + intros Hn. rewrite Hn. split; reflexivity.
Qed.

(** ** The header loop *)

Lemma is_crlf_true (l : bytes) : is_crlf l = true <-> l = crlf.
Proof.
  unfold is_crlf, crlf. split; [| intros ->; reflexivity].
  destruct l as [| a [| b [| c l]]]; try discriminate.
  - destruct a; discriminate.
  - destruct a; try discriminate; destruct b; try discriminate. reflexivity.
  - destruct a; try discriminate; destruct b; discriminate.
Qed.

Lemma read_headers_plain (pre : list bytes) (tail : list (res bytes))
  (headers : bytes) :
  Forall (fun l => is_crlf l = false) pre ->
  read_headers (map Ok pre ++ tail) headers
  = match tail with
    | [] => None
    | _ => read_headers tail (headers ++ joined pre)
    end.
Proof.
  intros H. revert headers.
  induction H as [| l pre Hl _ IH]; intros headers; cbn [map app joined concat].
  - rewrite app_nil_r. destruct tail; reflexivity.
  - cbn [read_headers]. rewrite Hl, IH.
    destruct tail; [reflexivity |]. unfold joined. now rewrite app_assoc.
Qed.

(** X6.  The header block is what was read.  The loop of [handle_client]
    gathers the first line and the lines that follow, byte for byte and in
    order, up to and with the first bare CRLF; a read that fails ends the
    block where it stands and the request goes on with it; a cancellation
    is raised again; and while neither has come the handler waits. *)
Theorem header_block_is_what_was_read :
  forall (pre : list bytes) (rest : list (res bytes)) (header : bytes),
    Forall (fun l => is_crlf l = false) pre ->
    read_headers (map Ok pre ++ Ok crlf :: rest) header
    = Some (Ok (header ++ joined pre ++ crlf)) /\
    (forall e, is_Exception e = true ->
               read_headers (map Ok pre ++ Raise e :: rest) header
               = Some (Ok (header ++ joined pre))) /\
    read_headers (map Ok pre ++ Raise CancelledError :: rest) header
    = Some (Raise CancelledError) /\
    read_headers (map Ok pre) header = None.
Proof.
  intros pre rest header H.
  split; [| split; [| split]].
  - rewrite read_headers_plain by exact H. cbn [read_headers].
    change (is_crlf crlf) with true. cbn iota. now rewrite app_assoc.
  - intros e He. rewrite read_headers_plain by exact H. cbn [read_headers].
    now rewrite He.
  - rewrite read_headers_plain by exact H. reflexivity.
  - rewrite <- (app_nil_r (map Ok pre)).
    now rewrite read_headers_plain by exact H.
Qed.

Lemma read_headers_raises (lines : list (res bytes)) (headers : bytes)
  (e : exn) :
  read_headers lines headers = Some (Raise e) -> e = CancelledError.
Proof.
  revert headers. induction lines as [| [l | e'] lines IH]; intros headers;
    cbn [read_headers].
  - discriminate.
  - destruct (is_crlf l); [discriminate | apply IH].
  - destruct e'; cbn [is_Exception]; congruence.
Qed.

Lemma read_request_stopped (w : world) (r : run) :
  read_request w = Stopped r ->
  r = (Returned, [EvClose Client]) \/
  r = (Raised CancelledError, []) \/
  r = (Waiting, []).
Proof.
  unfold read_request.
  destruct (client_lines w) as [| [header | e] rest].
  - intros H. injection H as <-. auto.
  - destruct (read_headers rest header) as [[headers | e] |] eqn:E.
    + destruct (_ <? 2)%nat; [| discriminate].
      intros H. injection H as <-. auto.
    + apply read_headers_raises in E. subst e.
      intros H. injection H as <-. auto.
    + intros H. injection H as <-. auto.
  - destruct e; cbn [is_Exception]; intros H; injection H as <-; auto.
Qed.

(** X7.  A request that cannot be read is dropped without a word.  When
    [handle_client] stops before it has a method and a target (the first
    line cannot be read, the header loop is cancelled, or the first line has
    fewer than two words) it has written nothing, to the client or to any
    target, and attempted no connection; either it has closed the client
    connection and returned, or it was cancelled and has closed nothing, or
    it still waits for a line. *)
Theorem unreadable_request_dropped :
  forall (w : world) (up_kbps down_kbps : Q) (r : run),
    read_request w = Stopped r ->
    handle_client w up_kbps down_kbps = r /\
    client_writes (snd r) = [] /\
    remote_writes (snd r) = [] /\
    attempts (snd r) = [] /\
    relays (snd r) = [] /\
    (r = (Returned, [EvClose Client]) \/
     r = (Raised CancelledError, []) \/
     r = (Waiting, [])).
Proof.
  intros w up down r H. unfold handle_client. rewrite H.
  split; [reflexivity |].
  destruct (read_request_stopped _ _ H) as [-> | [-> | ->]];
    repeat (split; [reflexivity |]); auto.
Qed.

End Targets.

Lemma header_block_is_what_was_read_witness :
  Forall (fun l => is_crlf l = false) [blit "Accept: */*" ++ crlf] /\
  read_headers (map Ok [blit "Accept: */*" ++ crlf] ++ [Ok crlf])
    (blit "GET / HTTP/1.1" ++ crlf)
  = Some (Ok ((blit "GET / HTTP/1.1" ++ crlf)
              ++ joined [blit "Accept: */*" ++ crlf] ++ crlf)).
Proof.
  assert (Forall (fun l => is_crlf l = false) [blit "Accept: */*" ++ crlf])
    as H by (constructor; [reflexivity | constructor]).
  split; [exact H |].
  apply (header_block_is_what_was_read _ [] _ H).
Defined.

Lemma unreadable_request_dropped_witness :
  read_request (py := ascii_str) w_request_line_only
  = Stopped (Returned, [EvClose Client]) /\
  handle_client (py := ascii_str) w_request_line_only 8 8
  = (Returned, [EvClose Client]).
Proof.
  assert (read_request (py := ascii_str) w_request_line_only
          = Stopped (Returned, [EvClose Client])) as H by reflexivity.
  split; [exact H |].
  apply (unreadable_request_dropped (py := ascii_str) _ 8 8 _ H).
Defined.

(** ** Every path of [handle_client] *)

Lemma str_eqb_eq (a b : str) : str_eqb a b = true -> a = b.
Proof.
  revert b. induction a as [| x a IH]; intros [| y b]; cbn [str_eqb];
    try discriminate; [reflexivity |].
  intros H. apply andb_prop in H as [Hx Hab].
  apply N.eqb_eq in Hx. subst y. f_equal. now apply IH.
Qed.

Lemma status_lines_differ :
  status_200 <> status_400 /\ status_200 <> status_502 /\
  status_400 <> status_502.
Proof. repeat split; intros H; vm_compute in H; discriminate. Qed.

(** Every way through [handle_client], one goal each. *)
Ltac every_path w R :=
  unfold handle_client;
  let r0 := fresh "r" in
  destruct (read_request w) as [r0 | ?method ?target ?headers] eqn:R;
  [ destruct (read_request_stopped _ _ R) as [-> | [-> | ->]]
  | unfold forward, handle_tunnel, after;
    repeat match goal with
      | |- context [match ?x with _ => _ end] =>
          lazymatch x with
          | returned _ => fail
          | _ => destruct x eqn:?
          end
      end;
    repeat match goal with u : unit |- _ => destruct u end ];
  cbn [fst snd app returned attempts relays closes filter is_connect
       is_relay is_client_close client_writes remote_writes flat_map length].

(** A status line looked for in the lines a path has written. *)
Ltac pick_line :=
  let H := fresh "H" in
  cbn [In]; intros H;
  repeat match type of H with _ \/ _ => destruct H as [H | H] end;
  try contradiction; try congruence.

Section HandlerDiscipline.
Context {py : PyStr}.

(** X8.  One connection, two relays.  Whatever the client sends and whatever
    the environment answers, [handle_client] attempts at most one outbound
    connection; it creates relay tasks only after that connection has been
    opened, and then exactly two, upload first at [up_kbps] and download at
    [down_kbps]; and it ends in the relay phase exactly when it has created
    them. *)
Theorem one_connection_two_relays :
  forall (w : world) (up_kbps down_kbps : Q),
    let r := handle_client w up_kbps down_kbps in
    (length (attempts (snd r)) <= 1)%nat /\
    (relays (snd r) = [] /\ fst r <> Relaying \/
     relays (snd r) = [EvRelay Up up_kbps; EvRelay Down down_kbps] /\
     fst r = Relaying /\
     exists host port,
       attempts (snd r) = [EvConnect host port] /\
       open_connection w host port = Ok tt).
Proof.
  intros w up down r. unfold r. every_path w R;
    (split; [lia |]);
    try (left; split; [reflexivity | discriminate]);
    right; (split; [reflexivity |]); (split; [reflexivity |]); eauto.
Qed.

(** X9.  Closed exactly when returned.  [handle_client] closes the client
    connection once, as its last act, on every path that ends in a
    [return], and on no other: not when it hands over to the relays, not
    when an exception leaves it.  Before the relays run it never closes the
    connection to the target. *)
Theorem closed_exactly_when_returned :
  forall (w : world) (up_kbps down_kbps : Q),
    let r := handle_client w up_kbps down_kbps in
    closes (snd r) = (if returned r then [EvClose Client] else []) /\
    (returned r = true -> exists tr, snd r = tr ++ [EvClose Client]) /\
    ~ In (EvClose Remote) (snd r).
Proof.
  intros w up down r. unfold r. every_path w R;
    (split; [reflexivity |]);
    (split; [try discriminate; intros _ | cbn [In]; intuition discriminate]).
  all: try (exists []; reflexivity).
  all: try (eexists [_]; reflexivity).
  all: try (eexists [_; _]; reflexivity).
  all: try (eexists [_; _; _]; reflexivity).
Qed.

(** X10.  The client hears status lines only.  Before the relays start, what
    [handle_client] writes to the client is nothing, or one of the three
    status lines, or the 200 line followed by the 502 line.  The 200 line
    is for CONNECT alone; the 400 line is for the other methods alone and
    comes without any connection attempt; the 502 line comes after one
    attempt, which failed. *)
Theorem client_hears_status_lines_only :
  forall (w : world) (up_kbps down_kbps : Q),
    let r := handle_client w up_kbps down_kbps in
    In (client_writes (snd r))
       [[]; [status_200]; [status_400]; [status_502];
        [status_200; status_502]] /\
    (In status_200 (client_writes (snd r)) ->
     exists target headers,
       read_request w = Request (lit "CONNECT") target headers) /\
    (In status_400 (client_writes (snd r)) ->
     attempts (snd r) = [] /\
     exists method target headers,
       read_request w = Request method target headers /\
       str_eqb method (lit "CONNECT") = false) /\
    (In status_502 (client_writes (snd r)) ->
     exists host port e,
       attempts (snd r) = [EvConnect host port] /\
       open_connection w host port = Raise e /\ is_Exception e = true).
Proof.
  intros w up down r. unfold r.
  destruct status_lines_differ as (D24 & D25 & D45).
  every_path w R;
    repeat match goal with
      | H : str_eqb _ _ = true |- _ => apply str_eqb_eq in H; subst
      end;
    (split; [cbn [In]; tauto |]);
    (split; [pick_line; eauto |]);
    (split; [pick_line; eauto 8 |]);
    pick_line; eauto 8.
Qed.

(** X11.  The target receives the header block and nothing else.  Before
    the relays start, [handle_client] writes to the target at most once:
    the header block of the request, as it was read, for a request that is
    not CONNECT, after the connection to the target has been opened.  For
    CONNECT it writes nothing to the target. *)
Theorem target_receives_header_block_only :
  forall (w : world) (up_kbps down_kbps : Q),
    let r := handle_client w up_kbps down_kbps in
    remote_writes (snd r) = [] \/
    exists method target headers host port,
      read_request w = Request method target headers /\
      str_eqb method (lit "CONNECT") = false /\
      remote_writes (snd r) = [headers] /\
      attempts (snd r) = [EvConnect host port] /\
      open_connection w host port = Ok tt.
Proof.
  intros w up down r. unfold r. every_path w R;
    try (left; reflexivity); right; eauto 10.
Qed.

End HandlerDiscipline.

End TrafficFacts.

(** * The listener: proofs *)

Section ServerFacts.
Import Server.

Ltac listener w :=
  unfold start_server, serve, aexit, range; cbn [seq attempts Nat.eqb];
  repeat match goal with
    | |- context [match ?x with _ => _ end] =>
        lazymatch x with
        | context [match _ with _ => _ end] => fail
        | _ => destruct x eqn:?
        end
    end;
  repeat match goal with
    | H : (_, _) = (_, _) |- _ => injection H as <- <-
    | H : (_, _) = (_, _) |- _ => try discriminate H
    end.

(** X12.  At most two attempts to listen, and never a loop that runs out.
    [start_server] calls [asyncio.start_server] once or twice and sleeps
    at most once, for one second, between the two calls; the [for] loop
    is always left by [break], [return] or an exception, so that the line
    after it never finds [server] unbound. *)
Theorem at_most_two_attempts_to_listen :
  forall (w : world),
    let r := start_server w in
    fst r <> NoServer /\
    (1 <= length (filter is_start (snd r)) <= 2)%nat /\
    (filter is_sleep (snd r) = [] \/
     filter is_sleep (snd r) = [EvSleep 1] /\
     exists tr, snd r = [EvStart; EvPrint Retrying; EvSleep 1] ++ tr).
Proof.
  intros w r. unfold r. listener w; cbn [fst snd];
    (split; [discriminate |]);
    (split; [rewrite ?filter_app; cbn; lia |]);
    rewrite ?filter_app; cbn [filter is_sleep app]; eauto.
Qed.

(** X13.  Only [errno] 10048 is tried again.  When the first
    [asyncio.start_server] fails with an [OSError] whose [errno] is 10048,
    [start_server] announces a retry and sleeps one second; when it fails
    with anything else (an [OSError] with another [errno], as the
    [EADDRINUSE] 98 of Linux, or an exception of another class), that
    exception leaves [start_server] at once: no message, no sleep, no
    second attempt. *)
Theorem retry_only_for_errno_10048 :
  forall (w : world) (e : raised),
    start w 0 = Fails e ->
    let r := start_server w in
    (address_in_use e = true ->
     exists tr, snd r = [EvStart; EvPrint Retrying; EvSleep 1] ++ tr) /\
    (address_in_use e = false -> r = (Raised e, [EvStart])).
Proof.
  intros w e H r. unfold r, start_server, range. cbn [seq attempts Nat.eqb].
  rewrite H. destruct e as [errno | |]; cbn [address_in_use].
  - destruct (errno_is errno 10048).
    + split; [intros _ | discriminate].
      destruct (sleep w 0); [| cbn [snd app]; eexists; reflexivity].
      destruct (start w 1) as [| [errno' | |]];
        [destruct (serve w) | destruct (errno_is errno' 10048) | |];
        cbn [snd app]; eexists; reflexivity.
    + split; [discriminate | reflexivity].
  - split; [discriminate | reflexivity].
  - split; [discriminate | reflexivity].
Qed.

Lemma retry_only_for_errno_10048_witness :
  start (busy_once 98) 0 = Fails (OSError (Some 98%Z)) /\
  start_server (busy_once 98)
  = (Raised (OSError (Some 98%Z)), [EvStart]).
Proof.
  split; [reflexivity |].
  apply (retry_only_for_errno_10048 (busy_once 98) (OSError (Some 98%Z))
           eq_refl).
  reflexivity.
Defined.

Ltac served_trace :=
  (exists [EvStart] +
   exists [EvStart; EvPrint Retrying; EvSleep 1; EvStart]);
  (exists [EvPrint ShutDown] + exists []);
  reflexivity.

(** X14.  A server that served is closed.  Once [serve_forever] has been
    awaited, [server.close()] and [wait_closed] follow it at once, however
    it ended, and the last thing [start_server] does is to close the server
    and await [wait_closed] once more; the shutdown message is printed
    exactly when the first [wait_closed] completed.  When no server was
    started, nothing is served, closed or announced. *)
Theorem served_server_is_closed :
  forall (w : world),
    let r := start_server w in
    (In EvServe (snd r) ->
     exists pre post,
       snd r = pre ++ [EvPrint Listening; EvServe; EvClose; EvWaitClosed]
                   ++ post ++ [EvClose; EvWaitClosed]) /\
    (~ In EvServe (snd r) ->
     ~ In EvClose (snd r) /\ ~ In (EvPrint Listening) (snd r)) /\
    (In (EvPrint ShutDown) (snd r) <->
     In EvServe (snd r) /\ wait_closed w 0 = Fine).
Proof.
  intros w r. unfold r. listener w; cbn [fst snd app In].
  all: (split; [intros H; try served_trace;
                 try (exfalso; intuition discriminate) |]).
  all: (split; [ intros H; try (exfalso; apply H; tauto);
                 intuition discriminate |]).
  all: split;
    [ intros H;
      first [ solve [exfalso; intuition discriminate]
            | split; [auto 15 | reflexivity] ]
    | intros [H1 H2];
      first [ discriminate H2
            | solve [exfalso; intuition discriminate]
            | auto 15 ] ].
Qed.

(** X15.  A cancelled server shuts down quietly.  When [serve_forever] ends
    by cancellation and the two [wait_closed] complete, [start_server]
    returns normally after the shutdown message; when [serve_forever] ends
    on another exception, the same cleanup runs and that exception is
    raised again after it. *)
Theorem cancelled_server_shuts_down_quietly :
  forall (w : world) (e : raised),
    serve_forever w = Fails e ->
    wait_closed w 0 = Fine -> wait_closed w 1 = Fine ->
    let r := start_server w in
    In EvServe (snd r) ->
    fst r = (match e with CancelledError => Returned | _ => Raised e end) /\
    exists pre,
      snd r = pre ++ [EvServe; EvClose; EvWaitClosed; EvPrint ShutDown;
                      EvClose; EvWaitClosed].
Proof.
  intros w e Hs H0 H1 r. unfold r, start_server, serve, aexit, range.
  cbn [seq attempts Nat.eqb]. rewrite Hs, H0, H1.
  repeat match goal with
    | |- context [match ?x with _ => _ end] =>
        lazymatch x with
        | context [match _ with _ => _ end] => fail
        | _ => destruct x eqn:?
        end
    end; cbn [fst snd app In]; intros H;
    try (exfalso; intuition discriminate);
    (split; [reflexivity |]).
  all: first
    [ exists [EvStart; EvPrint Listening]; reflexivity
    | exists [EvStart; EvPrint Retrying; EvSleep 1; EvStart;
              EvPrint Listening]; reflexivity ].
Qed.

Lemma cancelled_server_shuts_down_quietly_witness :
  serve_forever (busy_once 10048) = Fails CancelledError /\
  In EvServe (snd (start_server (busy_once 10048))) /\
  fst (start_server (busy_once 10048)) = Returned.
Proof.
  assert (In EvServe (snd (start_server (busy_once 10048)))) as H
    by (vm_compute; tauto).
  split; [reflexivity |]. split; [exact H |].
  exact (proj1 (cancelled_server_shuts_down_quietly (busy_once 10048)
                  CancelledError eq_refl eq_refl eq_refl H)).
Defined.

End ServerFacts.

(** * The launcher: proofs *)

Section LauncherFacts.
Import Aio Relay Flow Launcher.








End LauncherFacts.
